(** * HotSpot: ZGC safe delete and CDS shared-archive bookkeeping

    A shallow embedding of
    - [src/hotspot/share/gc/z/zSafeDelete.inline.hpp]
    - [src/hotspot/share/memory/metaspaceShared.hpp]
    and the properties of these two files that the design document relies on.

    C++ member functions are written in a state-and-abort monad over the
    object (or the process-wide statics) they act on.  Integers are [Z];
    the wrap-around of fixed-width unsigned types is written out. *)

From Stdlib Require Import ZArith List Bool String Lia.
Import ListNotations.
Open Scope Z_scope.

(** ** The VM monad: state passing, with the VM aborting on a failed check *)

Module VM.

(** A call either returns or stops the VM in [report_vm_error]. *)
Inductive outcome (A : Type) : Type :=
| Returned (a : A)
| VMError (msg : string).
Arguments Returned {A} a.
Arguments VMError {A} msg.

Definition M (St A : Type) : Type := St -> outcome (A * St).

Definition ret {St A} (a : A) : M St A := fun s => Returned (a, s).

Definition bind {St A B} (c : M St A) (k : A -> M St B) : M St B :=
  fun s =>
    match c s with
    | Returned (a, s') => k a s'
    | VMError msg => VMError msg
    end.

Definition gets {St A} (f : St -> A) : M St A := fun s => Returned (f s, s).

Definition modify {St} (f : St -> St) : M St unit :=
  fun s => Returned (tt, f s).

Definition fatal {St A} (msg : string) : M St A := fun _ => VMError msg.

(** [utilities/debug.hpp]: [guarantee(p, msg)] is checked in every build. *)
Definition guarantee {St} (p : bool) (msg : string) : M St unit :=
  if p then ret tt else fatal msg.

(** [utilities/debug.hpp]: [assert(p, msg)] is [vmassert(p, msg)] when the
    build defines [ASSERT] (debug builds) and expands to nothing otherwise. *)
Definition vmassert {St} (ASSERT : bool) (p : bool) (msg : string)
  : M St unit :=
  if ASSERT then guarantee p msg else ret tt.

(** A [for] loop over the elements of an array, in index order. *)
Fixpoint for_each {St A} (body : A -> M St unit) (l : list A) : M St unit :=
  match l with
  | [] => ret tt
  | x :: l' => bind (body x) (fun _ => for_each body l')
  end.

(** The final state of a call that returned. *)
Definition exec {St A} (c : M St A) (s : St) : outcome St :=
  match c s with
  | Returned (_, s') => Returned s'
  | VMError msg => VMError msg
  end.

(** The same call made twice in a row. *)
Definition twice {St A} (q : M St A) : M St (A * A) :=
  bind q (fun a => bind q (fun b => ret (a, b))).

(** A call that returns, leaves the state exactly as it found it and
    answers the same again when repeated. *)
Definition pure_read {St A} (q : M St A) : Prop :=
  forall s, exists v, q s = Returned (v, s) /\ twice q s = Returned ((v, v), s).

Module Notations.
Notation "x <- c ;; k" := (bind c (fun x => k))
  (at level 61, c at next level, right associativity).
Notation "c ;; k" := (bind c (fun _ => k))
  (at level 61, right associativity).
End Notations.

End VM.

Import VM VM.Notations.

(** ** gc/z/zSafeDelete.inline.hpp *)

Module ZSafeDelete.
Section Impl.

(** [ItemT*]: the pointers handed to the deleter. *)
Context {ItemT : Type}.
(** [std::is_array<T>::value] of the template argument. *)
Variable T_is_array : bool.
(** [ZLock*] values other than [NULL]. *)
Context {ZLock : Type}.
(** Width in bits of the unsigned integer type of [_enabled].  The field is
    declared in [gc/z/zSafeDelete.hpp], which is not among the sources
    ([uint64_t] upstream), so the width is a parameter of the model. *)
Variable counter_bits : Z.
(** Whether the build defines [ASSERT]. *)
Variable ASSERT : bool.

(** Unsigned arithmetic of the counter's type. *)
Definition wrap (z : Z) : Z := z mod 2 ^ counter_bits.

Record ZSafeDeleteImpl : Type := mkImpl {
  _lock : option ZLock;
  _enabled : Z;
  _deferred : list ItemT          (* ZArray<ItemT*> *)
}.

(** What reaches the C++ heap: [delete item] or [delete [] item]. *)
Inductive delete_expr : Type :=
| Delete (item : ItemT)
| DeleteArray (item : ItemT).

(** The object together with the deletions performed so far, oldest first. *)
Record world : Type := mkWorld {
  this : ZSafeDeleteImpl;
  deleted : list delete_expr
}.

Definition set_enabled (n : Z) (w : world) : world :=
  mkWorld (mkImpl (_lock (this w)) n (_deferred (this w))) (deleted w).

Definition set_deferred (d : list ItemT) (w : world) : world :=
  mkWorld (mkImpl (_lock (this w)) (_enabled (this w)) d) (deleted w).

Definition log_delete (e : delete_expr) (w : world) : world :=
  mkWorld (this w) (deleted w ++ [e]).

(** [ZArray::append]. *)
Definition append (item : ItemT) (a : list ItemT) : list ItemT := a ++ [item].

(** [ZArray::swap]: the two arrays exchange their contents. *)
Definition swap (a b : list ItemT) : list ItemT * list ItemT := (b, a).

(** [ZSafeDeleteImpl<T>::ZSafeDeleteImpl(ZLock* lock)]. *)
Definition ZSafeDeleteImpl_ctor (lock : option ZLock) : ZSafeDeleteImpl :=
  mkImpl lock 0 [].

(** [ZSafeDelete<T>::ZSafeDelete()], [own_lock] being the address of its
    [_lock] member. *)
Definition ZSafeDelete_ctor (own_lock : ZLock) : ZSafeDeleteImpl :=
  ZSafeDeleteImpl_ctor (Some own_lock).

(** [ZSafeDeleteNoLock<T>::ZSafeDeleteNoLock()]. *)
Definition ZSafeDeleteNoLock_ctor : ZSafeDeleteImpl :=
  ZSafeDeleteImpl_ctor None.

(** A freshly constructed deleter; nothing has been deleted through it. *)
Definition construct (lock : option ZLock) : world :=
  mkWorld (ZSafeDeleteImpl_ctor lock) [].

(** [bool deferred_delete(ItemT* item)].  The [ZLocker] held for the body
    leaves no trace in a sequential run. *)
Definition deferred_delete (item : ItemT) : M world bool :=
  enabled <- gets (fun w => _enabled (this w)) ;;
  if 0 <? enabled then
    d <- gets (fun w => _deferred (this w)) ;;
    modify (set_deferred (append item d)) ;;
    ret true
  else
    ret false.

(** [void immediate_delete(ItemT* item)]. *)
Definition immediate_delete (item : ItemT) : M world unit :=
  if T_is_array then
    modify (log_delete (DeleteArray item))
  else
    modify (log_delete (Delete item)).

(** [void enable_deferred_delete()]. *)
Definition enable_deferred_delete : M world unit :=
  enabled <- gets (fun w => _enabled (this w)) ;;
  modify (set_enabled (wrap (enabled + 1))).

(** [void disable_deferred_delete()]. *)
Definition disable_deferred_delete : M world unit :=
  let deferred := [] in
  deferred <- (
    enabled <- gets (fun w => _enabled (this w)) ;;
    vmassert ASSERT (0 <? enabled) "Invalid state" ;;
    modify (set_enabled (wrap (enabled - 1))) ;;
    enabled <- gets (fun w => _enabled (this w)) ;;
    if enabled =? 0 then
      d <- gets (fun w => _deferred (this w)) ;;
      let '(deferred, d) := swap deferred d in
      modify (set_deferred d) ;;
      ret deferred
    else
      ret deferred) ;;
  for_each immediate_delete deferred.

(** [void operator()(ItemT* item)].  The C++ function returns nothing; the
    value here records what [deferred_delete] answered. *)
Definition operator_call (item : ItemT) : M world bool :=
  was_deferred <- deferred_delete item ;;
  (if negb was_deferred then immediate_delete item else ret tt) ;;
  ret was_deferred.

(** *** Runs of a deleter *)

Inductive operation : Type :=
| Enable
| Disable
| DeferredDelete (item : ItemT)
| Call (item : ItemT).

Definition perform (o : operation) : M world unit :=
  match o with
  | Enable => enable_deferred_delete
  | Disable => disable_deferred_delete
  | DeferredDelete item => deferred_delete item ;; ret tt
  | Call item => operator_call item ;; ret tt
  end.

Definition run (t : list operation) : M world unit := for_each perform t.

(** Every [Disable] of the run is matched by an earlier [Enable] that no
    other [Disable] has used up; [outstanding] counts the unmatched ones. *)
Fixpoint balanced (outstanding : nat) (t : list operation) : bool :=
  match t with
  | [] => true
  | Enable :: t' => balanced (S outstanding) t'
  | Disable :: t' =>
      match outstanding with
      | O => false
      | S n => balanced n t'
      end
  | _ :: t' => balanced outstanding t'
  end.

(** Enables minus disables, as a mathematical integer. *)
Fixpoint net_enables (t : list operation) : Z :=
  match t with
  | [] => 0
  | Enable :: t' => net_enables t' + 1
  | Disable :: t' => net_enables t' - 1
  | _ :: t' => net_enables t'
  end.

Definition is_enable (o : operation) : bool :=
  match o with Enable => true | _ => false end.

(** The number of [Enable]s in a run. *)
Definition enables (t : list operation) : Z :=
  Z.of_nat (List.length (filter is_enable t)).

(** The invariant: nothing is parked while deferral is off. *)
Definition no_orphans (w : world) : Prop :=
  _enabled (this w) = 0 -> _deferred (this w) = [].

(** The deletion [immediate_delete] performs for an item. *)
Definition deletion_of (item : ItemT) : delete_expr :=
  if T_is_array then DeleteArray item else Delete item.

(** The state a [disable_deferred_delete] that passes its check leaves. *)
Definition after_disable (w : world) : world :=
  let n := wrap (_enabled (this w) - 1) in
  if n =? 0 then
    mkWorld (mkImpl (_lock (this w)) n [])
            (deleted w ++ map deletion_of (_deferred (this w)))
  else set_enabled n w.

(** The counter holds a value of its type. *)
Definition representable (w : world) : Prop :=
  0 <= _enabled (this w) < 2 ^ counter_bits.

(** The items a run hands over to the deleter, in order: every item
    passed to [operator()], and the items [deferred_delete] takes, which it
    does while an enable is outstanding. *)
Fixpoint handed_over (outstanding : nat) (t : list operation) : list ItemT :=
  match t with
  | [] => []
  | Enable :: t' => handed_over (S outstanding) t'
  | Disable :: t' => handed_over (Nat.pred outstanding) t'
  | DeferredDelete item :: t' =>
      match outstanding with
      | O => handed_over outstanding t'
      | S _ => item :: handed_over outstanding t'
      end
  | Call item :: t' => item :: handed_over outstanding t'
  end.

(** Every item a run passes to [deferred_delete] or [operator()]. *)
Fixpoint items_passed (t : list operation) : list ItemT :=
  match t with
  | [] => []
  | DeferredDelete item :: t' => item :: items_passed t'
  | Call item :: t' => item :: items_passed t'
  | _ :: t' => items_passed t'
  end.

(** What the deleter has taken and answers for: the deletions it has
    performed, followed by the deletions it still owes for the items it
    holds. *)
Definition accounted (w : world) : list delete_expr :=
  deleted w ++ map deletion_of (_deferred (this w)).

(** Whether a deletion is a [delete []]. *)
Definition is_array_delete (e : delete_expr) : bool :=
  match e with
  | Delete _ => false
  | DeleteArray _ => true
  end.

(** Every deletion of a log is of the kind the template argument asks
    for. *)
Definition log_uniform (w : world) : Prop :=
  Forall (fun e => is_array_delete e = T_is_array) (deleted w).

End Impl.

Arguments ZSafeDeleteImpl : clear implicits.
Arguments delete_expr : clear implicits.
Arguments world : clear implicits.
Arguments operation : clear implicits.

(** *** A [uint64_t] deleter of integers, for concrete runs *)

(** One enable outstanding and item 5 parked. *)
Definition one_pending : world Z unit := mkWorld (mkImpl None 1 [5]) [].

(** Straight after [ZSafeDeleteNoLock()]. *)
Definition fresh : world Z unit := construct None.

(** The counter at the largest value of [uint64_t], with item 5 parked. *)
Definition at_top : world Z unit := mkWorld (mkImpl None (2 ^ 64 - 1) [5]) [].

(** Two nested enables around calls of both entries. *)
Definition nested_run : list (operation Z) :=
  [Enable; Call 7; Enable; Call 8; Disable; DeferredDelete 9; Disable;
   Call 10].

(** Calls inside an enable that is already outstanding. *)
Definition inner_run : list (operation Z) :=
  [Call 7; Enable; DeferredDelete 8; Disable].

End ZSafeDelete.

(** ** memory/metaspaceShared.hpp *)

Module MetaspaceShared.

Definition MAX_SHARED_DELTA : Z := 0x7FFFFFFF.

Inductive MapArchiveResult : Type :=
| MAP_ARCHIVE_SUCCESS
| MAP_ARCHIVE_MMAP_FAILURE
| MAP_ARCHIVE_OTHER_FAILURE.

(** The enumerators' values, as C++ numbers them. *)
Definition MapArchiveResult_value (r : MapArchiveResult) : Z :=
  match r with
  | MAP_ARCHIVE_SUCCESS => 0
  | MAP_ARCHIVE_MMAP_FAILURE => 1
  | MAP_ARCHIVE_OTHER_FAILURE => 2
  end.

(** *** The anonymous enum of region indices *)

(* core archive spaces *)
Definition mc : Z := 0.
Definition rw : Z := 1.
Definition ro : Z := 2.
Definition bm : Z := 3.
Definition num_core_region : Z := 3.
Definition num_non_heap_spaces : Z := 4.
(* mapped java heap regions *)
Definition first_closed_archive_heap_region : Z := bm + 1.
Definition max_closed_archive_heap_region : Z := 2.
Definition last_closed_archive_heap_region : Z :=
  first_closed_archive_heap_region + max_closed_archive_heap_region - 1.
Definition first_open_archive_heap_region : Z :=
  last_closed_archive_heap_region + 1.
Definition max_open_archive_heap_region : Z := 2.
Definition last_open_archive_heap_region : Z :=
  first_open_archive_heap_region + max_open_archive_heap_region - 1.
Definition last_valid_region : Z := last_open_archive_heap_region.
Definition n_regions : Z := last_valid_region + 1.

(** What an index of the enum denotes; heap regions carry their position
    within their group. *)
Inductive region_kind : Type :=
| misc_code
| read_write_space
| read_only_space
| bitmap
| closed_archive_heap (k : Z)
| open_archive_heap (k : Z).

Definition region_kind_of (idx : Z) : option region_kind :=
  if idx =? mc then Some misc_code
  else if idx =? rw then Some read_write_space
  else if idx =? ro then Some read_only_space
  else if idx =? bm then Some bitmap
  else if (first_closed_archive_heap_region <=? idx)
          && (idx <=? last_closed_archive_heap_region)
  then Some (closed_archive_heap (idx - first_closed_archive_heap_region))
  else if (first_open_archive_heap_region <=? idx)
          && (idx <=? last_open_archive_heap_region)
  then Some (open_archive_heap (idx - first_open_archive_heap_region))
  else None.

(** The indices [0 .. n-1], ascending. *)
Definition indices (n : Z) : list Z :=
  map Z.of_nat (seq 0 (Z.to_nat n)).

(** The catalogue: every region index in ascending order with its kind. *)
Definition region_catalogue : list (option region_kind) :=
  map region_kind_of (indices n_regions).

Definition is_closed_heap (k : option region_kind) : bool :=
  match k with Some (closed_archive_heap _) => true | _ => false end.

Definition is_open_heap (k : option region_kind) : bool :=
  match k with Some (open_archive_heap _) => true | _ => false end.

(** *** Collaborators declared in other headers *)

(** Modelled from the spec: the permission class of a region, which the
    sources leave to the archive file layer. *)
Inductive permission : Type :=
| read_execute
| read_write
| read_only.

(** Modelled from the spec: [ReservedSpace] is declared in
    [memory/virtualspace.hpp]; a reserved address range, given by its base
    and its size in bytes. *)
Record ReservedSpace : Type := mkReservedSpace {
  _base : Z;
  _size : Z
}.

(** Modelled from the spec: [ReservedSpace::contains] is defined in
    [memory/virtualspace.hpp]; the pointer lies inside the reserved
    space, that is at or above its base and below its end. *)
Definition ReservedSpace_contains (rs : ReservedSpace) (p : Z) : bool :=
  (_base rs <=? p) && (p <? _base rs + _size rs).

(** Modelled from the spec: one entry of the region table of a mapped
    archive, a contiguous span with its mapped address, byte size and
    permission class. *)
Record FileMapRegion : Type := mkFileMapRegion {
  mapped_base : Z;
  used : Z;
  perm : permission
}.

(** Modelled from the spec: the archive file handle, as the I/O layer
    hands it to the mapper: whether header, version and checksum validated,
    the base address recorded at dump time, and the region descriptors. *)
Record FileMapInfo : Type := mkFileMapInfo {
  header_ok : bool;
  requested_base : Z;
  region_sizes : list (Z * permission)
}.

(** Modelled from the spec: what the operating system answers to the
    mapper when it reserves an address range or maps a file into it. *)
Record os_model : Type := mkOs {
  reserve_at : Z -> Z -> bool;        (* base, size: is the range free *)
  reserve_anywhere : Z -> option Z;   (* size: some free base *)
  map_at : Z -> Z -> bool             (* base, size: does the file map there *)
}.

Section Statics.

(** [memory/virtualspace.hpp] and [classfile/compactHashtable.hpp]: types
    the class only stores, with their default-constructed values. *)
Context {VirtualSpace : Type}.
Variable VirtualSpace_ctor : VirtualSpace.
Context {CompactHashtableStats : Type}.
Variable CompactHashtableStats_zero : CompactHashtableStats.

(** [utilities/macros.hpp]: whether the build includes CDS, which selects
    between [CDS_ONLY(...)] and [NOT_CDS(...)]. *)
Variable INCLUDE_CDS : bool.
(** Whether the build defines [ASSERT]. *)
Variable ASSERT : bool.
(** Whether pointers, and with them [uintx], are 64 bits wide. *)
Variable LP64 : bool.

Definition uintx_bits : Z := if LP64 then 64 else 32.

(** The conversion [(u4)x]. *)
Definition u4 (x : Z) : Z := x mod 2 ^ 32.

Record MetaspaceSharedStats : Type := mkStats {
  symbol : CompactHashtableStats;
  string : CompactHashtableStats
}.

(** [MetaspaceSharedStats()]: everything zeroed. *)
Definition MetaspaceSharedStats_ctor : MetaspaceSharedStats :=
  mkStats CompactHashtableStats_zero CompactHashtableStats_zero.

(** The static data members of [MetaspaceShared]; [NULL] is [0]. *)
Record statics : Type := mkStatics {
  _shared_rs : ReservedSpace;
  _shared_vs : VirtualSpace;
  _symbol_rs : ReservedSpace;
  _symbol_vs : VirtualSpace;
  _max_alignment : Z;
  _stats : MetaspaceSharedStats;
  _has_error_classes : bool;
  _archive_loading_failed : bool;
  _remapped_readwrite : bool;
  _i2i_entry_code_buffers : Z;
  _i2i_entry_code_buffers_size : Z;
  _core_spaces_size : Z;
  _shared_metaspace_static_top : Z;
  _relocation_delta : Z;
  _requested_base_address : Z;
  _use_optimized_module_handling : bool;
  _use_full_module_graph : bool
}.

(** The process-wide state the header's functions read and write: the
    statics above, the VM flags of [runtime/globals.hpp], the shared
    metaspace range kept by [MetaspaceObj] ([memory/allocation.hpp]) and
    the region table of the mapped static archive. *)
Record process : Type := mkProcess {
  the_statics : statics;
  DumpSharedSpaces : bool;
  UseSharedSpaces : bool;
  SharedBaseAddress : Z;
  _shared_metaspace_base : Z;
  _shared_metaspace_top : Z;
  regions : list FileMapRegion
}.

Definition with_statics (f : statics -> statics) (s : process) : process :=
  mkProcess (f (the_statics s)) (DumpSharedSpaces s) (UseSharedSpaces s)
    (SharedBaseAddress s) (_shared_metaspace_base s) (_shared_metaspace_top s)
    (regions s).

Definition with_regions (r : list FileMapRegion) (s : process) : process :=
  mkProcess (the_statics s) (DumpSharedSpaces s) (UseSharedSpaces s)
    (SharedBaseAddress s) (_shared_metaspace_base s) (_shared_metaspace_top s)
    r.

Definition with_shared_metaspace (base top : Z) (s : process) : process :=
  mkProcess (the_statics s) (DumpSharedSpaces s) (UseSharedSpaces s)
    (SharedBaseAddress s) base top (regions s).

Definition assign_shared_rs (v : ReservedSpace) (x : statics) : statics :=
  mkStatics v (_shared_vs x) (_symbol_rs x) (_symbol_vs x) (_max_alignment x)
    (_stats x) (_has_error_classes x) (_archive_loading_failed x)
    (_remapped_readwrite x) (_i2i_entry_code_buffers x)
    (_i2i_entry_code_buffers_size x) (_core_spaces_size x)
    (_shared_metaspace_static_top x) (_relocation_delta x)
    (_requested_base_address x) (_use_optimized_module_handling x)
    (_use_full_module_graph x).

Definition assign_archive_loading_failed (v : bool) (x : statics) : statics :=
  mkStatics (_shared_rs x) (_shared_vs x) (_symbol_rs x) (_symbol_vs x)
    (_max_alignment x) (_stats x) (_has_error_classes x) v
    (_remapped_readwrite x) (_i2i_entry_code_buffers x)
    (_i2i_entry_code_buffers_size x) (_core_spaces_size x)
    (_shared_metaspace_static_top x) (_relocation_delta x)
    (_requested_base_address x) (_use_optimized_module_handling x)
    (_use_full_module_graph x).

Definition assign_remapped_readwrite (v : bool) (x : statics) : statics :=
  mkStatics (_shared_rs x) (_shared_vs x) (_symbol_rs x) (_symbol_vs x)
    (_max_alignment x) (_stats x) (_has_error_classes x)
    (_archive_loading_failed x) v (_i2i_entry_code_buffers x)
    (_i2i_entry_code_buffers_size x) (_core_spaces_size x)
    (_shared_metaspace_static_top x) (_relocation_delta x)
    (_requested_base_address x) (_use_optimized_module_handling x)
    (_use_full_module_graph x).

Definition assign_relocation (delta requested : Z) (x : statics) : statics :=
  mkStatics (_shared_rs x) (_shared_vs x) (_symbol_rs x) (_symbol_vs x)
    (_max_alignment x) (_stats x) (_has_error_classes x)
    (_archive_loading_failed x) (_remapped_readwrite x)
    (_i2i_entry_code_buffers x) (_i2i_entry_code_buffers_size x)
    (_core_spaces_size x) (_shared_metaspace_static_top x) delta requested
    (_use_optimized_module_handling x) (_use_full_module_graph x).

Definition assign_use_optimized_module_handling (v : bool) (x : statics)
  : statics :=
  mkStatics (_shared_rs x) (_shared_vs x) (_symbol_rs x) (_symbol_vs x)
    (_max_alignment x) (_stats x) (_has_error_classes x)
    (_archive_loading_failed x) (_remapped_readwrite x)
    (_i2i_entry_code_buffers x) (_i2i_entry_code_buffers_size x)
    (_core_spaces_size x) (_shared_metaspace_static_top x)
    (_relocation_delta x) (_requested_base_address x) v
    (_use_full_module_graph x).

Definition assign_use_full_module_graph (v : bool) (x : statics) : statics :=
  mkStatics (_shared_rs x) (_shared_vs x) (_symbol_rs x) (_symbol_vs x)
    (_max_alignment x) (_stats x) (_has_error_classes x)
    (_archive_loading_failed x) (_remapped_readwrite x)
    (_i2i_entry_code_buffers x) (_i2i_entry_code_buffers_size x)
    (_core_spaces_size x) (_shared_metaspace_static_top x)
    (_relocation_delta x) (_requested_base_address x)
    (_use_optimized_module_handling x) v.

(** Modelled from the spec: the initializers of the statics are in
    [metaspaceShared.cpp].  The two compatibility gate flags are
    initialized true; the remaining statics are zero-initialized, with
    nothing remapped, no failure recorded and no relocation. *)
Definition static_initialization : statics :=
  mkStatics (mkReservedSpace 0 0) VirtualSpace_ctor (mkReservedSpace 0 0)
    VirtualSpace_ctor 0 MetaspaceSharedStats_ctor false false false
    0 0 0 0 0 0 true true.

(** The process before any function of the class has run, for given
    values of the VM flags. *)
Definition startup (dump use : bool) (shared_base_address : Z) : process :=
  mkProcess static_initialization dump use shared_base_address 0 0 [].

(** *** Member functions with a body in the header *)

(** [shared_rs()]: [&_shared_rs], or [NULL] without CDS. *)
Definition shared_rs : M process (option ReservedSpace) :=
  if INCLUDE_CDS then
    rs <- gets (fun s => _shared_rs (the_statics s)) ;; ret (Some rs)
  else
    ret None.

Definition symbol_rs_base : M process Z :=
  gets (fun s => _base (_symbol_rs (the_statics s))).

Definition set_shared_rs (rs : ReservedSpace) : M process unit :=
  if INCLUDE_CDS then modify (with_statics (assign_shared_rs rs))
  else ret tt.

(** Modelled from the spec: [object_delta_uintx] is defined in
    [metaspaceShared.cpp]; the header documents it as the delta of this
    object from [SharedBaseAddress], an unsigned word. *)
Definition object_delta_uintx (obj : Z) : M process Z :=
  base_address <- gets SharedBaseAddress ;;
  ret ((obj - base_address) mod 2 ^ uintx_bits).

Definition object_delta_u4 (obj : Z) : M process Z :=
  deltax <- object_delta_uintx obj ;;
  guarantee (deltax <=? MAX_SHARED_DELTA) "must be 32-bit offset" ;;
  ret (u4 deltax).

Definition set_archive_loading_failed : M process unit :=
  modify (with_statics (assign_archive_loading_failed true)).

(** [is_in_output_space]: [shared_rs()->contains(ptr)].  Calling through
    the [NULL] that [shared_rs()] yields without CDS stops the VM. *)
Definition is_in_output_space (ptr : Z) : M process bool :=
  dump <- gets DumpSharedSpaces ;;
  vmassert ASSERT dump "must be" ;;
  rs <- shared_rs ;;
  match rs with
  | Some rs => ret (ReservedSpace_contains rs ptr)
  | None => fatal "SIGSEGV"
  end.

(** Modelled from the spec: [MetaspaceObj::is_shared] is defined in
    [memory/allocation.hpp]; the address is inside shared metaspace, the
    range from its base up to, not including, its top. *)
Definition MetaspaceObj_is_shared (p : Z) : M process bool :=
  top <- gets _shared_metaspace_top ;;
  base <- gets _shared_metaspace_base ;;
  ret ((p <? top) && (base <=? p)).

Definition is_in_shared_metaspace (p : Z) : M process bool :=
  MetaspaceObj_is_shared p.

Definition shared_metaspace_top : M process Z :=
  gets _shared_metaspace_top.

Definition stats : M process MetaspaceSharedStats :=
  gets (fun s => _stats (the_statics s)).

Definition remapped_readwrite : M process bool :=
  if INCLUDE_CDS then gets (fun s => _remapped_readwrite (the_statics s))
  else ret false.

Definition i2i_entry_code_buffers : M process Z :=
  gets (fun s => _i2i_entry_code_buffers (the_statics s)).

Definition i2i_entry_code_buffers_size : M process Z :=
  gets (fun s => _i2i_entry_code_buffers_size (the_statics s)).

Definition requested_base_address : M process Z :=
  gets (fun s => _requested_base_address (the_statics s)).

Definition relocation_delta : M process Z :=
  gets (fun s => _relocation_delta (the_statics s)).

Definition use_optimized_module_handling : M process bool :=
  if INCLUDE_CDS then
    gets (fun s => _use_optimized_module_handling (the_statics s))
  else ret false.

Definition disable_optimized_module_handling : M process unit :=
  modify (with_statics (assign_use_optimized_module_handling false)).

Definition disable_full_module_graph : M process unit :=
  modify (with_statics (assign_use_full_module_graph false)).

(** *** Member functions the header only declares *)

(** The entry of the region table at an index of the enum. *)
Definition region_at (idx : Z) (table : list FileMapRegion)
  : option FileMapRegion :=
  if (0 <=? idx) && (idx <? n_regions) then nth_error table (Z.to_nat idx)
  else None.

(** The table with the entry at [idx] replaced; a table too short to
    have the entry is left as it is. *)
Fixpoint replace_at (idx : nat) (r : FileMapRegion)
  (table : list FileMapRegion) : list FileMapRegion :=
  match table, idx with
  | [], _ => []
  | _ :: rest, O => r :: rest
  | x :: rest, S i => x :: replace_at i r rest
  end.

(** Modelled from the spec: [is_in_shared_region] is defined in
    [metaspaceShared.cpp]; the address is inside region [idx] of the
    mapped archive.  Without CDS the declaration's [NOT_CDS_RETURN_(false)]
    gives the body. *)
Definition is_in_shared_region (p : Z) (idx : Z) : M process bool :=
  if INCLUDE_CDS then
    use <- gets UseSharedSpaces ;;
    table <- gets regions ;;
    match region_at idx table with
    | Some r =>
        ret (use && (mapped_base r <=? p) && (p <? mapped_base r + used r))
    | None => ret false
    end
  else ret false.

(** Modelled from the spec: [remap_shared_readonly_as_readwrite] is
    defined in [metaspaceShared.cpp].  It remaps the read-only region as a
    private read-write mapping, once, under the flag [_remapped_readwrite];
    it simply returns true if sharing is not enabled or if the remapping
    has already been done by a prior call.  [os_remaps] is whether the
    operating system grants the remapping; a refused remapping returns
    false and changes nothing.  Without CDS the declaration's
    [NOT_CDS_RETURN_(true)] gives the body. *)
Definition remap_shared_readonly_as_readwrite (os_remaps : bool)
  : M process bool :=
  if INCLUDE_CDS then
    use <- gets UseSharedSpaces ;;
    if negb use then ret true
    else
      done <- gets (fun s => _remapped_readwrite (the_statics s)) ;;
      if done then ret true
      else if os_remaps then
        table <- gets regions ;;
        match region_at ro table with
        | Some r =>
            modify (with_regions
              (replace_at (Z.to_nat ro)
                 (mkFileMapRegion (mapped_base r) (used r) read_write) table))
        | None => ret tt
        end ;;
        modify (with_statics (assign_remapped_readwrite true)) ;;
        ret true
      else ret false
  else ret true.

(** The single case in which the remapping touches the state. *)
Definition remap_due (s : process) : bool :=
  INCLUDE_CDS && UseSharedSpaces s
  && negb (_remapped_readwrite (the_statics s)).

(** The state after a remapping the operating system granted. *)
Definition remapped_state (s : process) : process :=
  with_statics (assign_remapped_readwrite true)
    (match region_at ro (regions s) with
     | Some r =>
         with_regions
           (replace_at (Z.to_nat ro)
              (mkFileMapRegion (mapped_base r) (used r) read_write)
              (regions s)) s
     | None => s
     end).

(** Bytes of the archive's regions, summed. *)
Definition mapping_size (m : FileMapInfo) : Z :=
  fold_right Z.add 0 (map fst (region_sizes m)).

(** The regions of an archive placed one after the other from [base], in
    the order of the file. *)
Fixpoint place (base : Z) (rs : list (Z * permission)) : list FileMapRegion :=
  match rs with
  | [] => []
  | (size, p) :: rest => mkFileMapRegion base size p :: place (base + size) rest
  end.

(** The bitmap region handed back to the operating system. *)
Definition release_bitmap (table : list FileMapRegion) : list FileMapRegion :=
  match region_at bm table with
  | Some r => replace_at (Z.to_nat bm) (mkFileMapRegion 0 0 (perm r)) table
  | None => table
  end.

(** Modelled from the spec: [map_archives] is defined in
    [metaspaceShared.cpp].  One attempt of the loader: an archive whose
    header, version or checksum does not validate is a non-retryable
    failure; the address range for all regions is reserved at the
    requested base when [use_requested_addr], anywhere otherwise, and an
    unavailable range or a refused mapping is a retryable failure that
    leaves nothing mapped; the static archive is mapped first and the
    dynamic one is anchored at its top; the relocation delta is the mapped
    base minus the requested base; the bitmap region is released. *)
Definition map_archives (static_mapinfo : FileMapInfo)
  (dynamic_mapinfo : option FileMapInfo) (use_requested_addr : bool)
  (os : os_model) : M process MapArchiveResult :=
  let dynamic_ok :=
    match dynamic_mapinfo with Some d => header_ok d | None => true end in
  let dynamic_size :=
    match dynamic_mapinfo with Some d => mapping_size d | None => 0 end in
  if negb (header_ok static_mapinfo && dynamic_ok) then
    ret MAP_ARCHIVE_OTHER_FAILURE
  else
    let total := mapping_size static_mapinfo + dynamic_size in
    let requested := requested_base static_mapinfo in
    let reserved :=
      if use_requested_addr then
        if reserve_at os requested total then Some requested else None
      else reserve_anywhere os total in
    match reserved with
    | None => ret MAP_ARCHIVE_MMAP_FAILURE
    | Some base =>
        let static_top := base + mapping_size static_mapinfo in
        let dynamic_mapped :=
          match dynamic_mapinfo with
          | Some d => map_at os static_top (mapping_size d)
          | None => true
          end in
        if map_at os base (mapping_size static_mapinfo) && dynamic_mapped then
          modify (with_statics
            (assign_relocation (base - requested) requested)) ;;
          modify (with_shared_metaspace base (base + total)) ;;
          modify (with_regions
            (release_bitmap (place base (region_sizes static_mapinfo)))) ;;
          ret MAP_ARCHIVE_SUCCESS
        else
          ret MAP_ARCHIVE_MMAP_FAILURE
    end.

(** *** Runs of the class's functions *)

Inductive operation : Type :=
| call_set_shared_rs (rs : ReservedSpace)
| call_object_delta_u4 (obj : Z)
| call_set_archive_loading_failed
| call_is_in_output_space (ptr : Z)
| call_is_in_shared_metaspace (p : Z)
| call_is_in_shared_region (p : Z) (idx : Z)
| call_remap_shared_readonly_as_readwrite (os_remaps : bool)
| call_remapped_readwrite
| call_requested_base_address
| call_relocation_delta
| call_use_optimized_module_handling
| call_disable_optimized_module_handling
| call_disable_full_module_graph
| call_map_archives (static_mapinfo : FileMapInfo)
    (dynamic_mapinfo : option FileMapInfo) (use_requested_addr : bool)
    (os : os_model).

Definition perform (o : operation) : M process unit :=
  match o with
  | call_set_shared_rs rs => set_shared_rs rs
  | call_object_delta_u4 obj => object_delta_u4 obj ;; ret tt
  | call_set_archive_loading_failed => set_archive_loading_failed
  | call_is_in_output_space ptr => is_in_output_space ptr ;; ret tt
  | call_is_in_shared_metaspace p => is_in_shared_metaspace p ;; ret tt
  | call_is_in_shared_region p idx => is_in_shared_region p idx ;; ret tt
  | call_remap_shared_readonly_as_readwrite os_remaps =>
      remap_shared_readonly_as_readwrite os_remaps ;; ret tt
  | call_remapped_readwrite => remapped_readwrite ;; ret tt
  | call_requested_base_address => requested_base_address ;; ret tt
  | call_relocation_delta => relocation_delta ;; ret tt
  | call_use_optimized_module_handling =>
      use_optimized_module_handling ;; ret tt
  | call_disable_optimized_module_handling =>
      disable_optimized_module_handling
  | call_disable_full_module_graph => disable_full_module_graph
  | call_map_archives st dy use os => map_archives st dy use os ;; ret tt
  end.

Definition run (t : list operation) : M process unit := for_each perform t.

(** What a remapping may do to the region table: every entry stays as it
    is, except that the entry of [ro] may have become read-write, at the
    same address and size. *)
Definition permissions_relaxed (before after : list FileMapRegion) : Prop :=
  List.length after = List.length before /\
  forall i r,
    nth_error before i = Some r ->
    nth_error after i = Some r
    \/ (Z.of_nat i = ro
        /\ nth_error after i
           = Some (mkFileMapRegion (mapped_base r) (used r) read_write)).

End Statics.

Arguments MetaspaceSharedStats : clear implicits.
Arguments statics : clear implicits.
Arguments process : clear implicits.

(** *** A 64-bit process and an archive, for concrete runs *)

(** The archive of the design document's example: [mc], [rw], [ro] and
    [bm] of 4096, 8192, 16384 and 512 bytes, dumped for base
    [0x800000000]. *)
Definition example_archive : FileMapInfo :=
  mkFileMapInfo true 0x800000000
    [(4096, read_execute); (8192, read_write); (16384, read_only);
     (512, read_only)].

(** An operating system that grants every request and places ranges it may
    choose at [0x900000000]. *)
Definition willing_os : os_model :=
  mkOs (fun _ _ => true) (fun _ => Some 0x900000000) (fun _ _ => true).

(** A dumping process and a process that uses the archive, both at
    startup, with [SharedBaseAddress] [0x800000000]. *)
Definition dumping : process unit unit := startup tt tt true false 0x800000000.
Definition sharing : process unit unit := startup tt tt false true 0x800000000.

(** The dumping process once its output space is reserved. *)
Definition dumping_reserved : process unit unit :=
  with_statics (assign_shared_rs (mkReservedSpace 0x800000000 0x100000))
    dumping.

(** The sharing process once [example_archive] is mapped where requested. *)
Definition mapped : process unit unit :=
  match map_archives example_archive None true willing_os sharing with
  | Returned (_, s) => s
  | VMError _ => sharing
  end.

(** The sharing process after both gates have been disabled. *)
Definition gates_off : process unit unit :=
  with_statics (assign_use_full_module_graph false)
    (with_statics (assign_use_optimized_module_handling false) sharing).

End MetaspaceShared.


(** * Properties of the safe deleter *)

Module ZSafeDeleteProofs.
Import ZSafeDelete.
Section Impl.

Context {ItemT : Type} {ZLock : Type}.
Variable T_is_array : bool.
Variable counter_bits : Z.
Variable ASSERT : bool.

Local Abbreviation world := (ZSafeDelete.world ItemT ZLock).

Lemma immediate_delete_eq (item : ItemT) (w : world) :
  immediate_delete T_is_array item w
    = Returned (tt, log_delete (deletion_of T_is_array item) w).
Proof.
  unfold ZSafeDelete.immediate_delete, ZSafeDelete.deletion_of.
  destruct T_is_array; reflexivity.
Qed.

Lemma for_each_immediate_delete (l : list ItemT) (w : world) :
  for_each (immediate_delete T_is_array) l w
  = Returned
      (tt, mkWorld (this w) (deleted w ++ map (deletion_of T_is_array) l)).
Proof.
  revert w; induction l as [|x l IH]; intros [obj log]; simpl.
  - unfold ret. now rewrite app_nil_r.
  - unfold bind. rewrite immediate_delete_eq. rewrite IH. simpl.
    now rewrite <- app_assoc.
Qed.

Lemma deferred_delete_eq (item : ItemT) (w : world) :
  deferred_delete item w
  = if 0 <? _enabled (this w)
    then Returned (true, set_deferred (_deferred (this w) ++ [item]) w)
    else Returned (false, w).
Proof.
  unfold deferred_delete, bind, gets.
  destruct (0 <? _enabled (this w)); reflexivity.
Qed.

Lemma operator_call_eq (item : ItemT) (w : world) :
  operator_call T_is_array item w
  = if 0 <? _enabled (this w)
    then Returned (true, set_deferred (_deferred (this w) ++ [item]) w)
    else Returned (false, log_delete (deletion_of T_is_array item) w).
Proof.
  unfold ZSafeDelete.operator_call, bind. rewrite deferred_delete_eq.
  destruct (0 <? _enabled (this w)); simpl.
  - reflexivity.
  - now rewrite immediate_delete_eq.
Qed.

Lemma enable_eq (w : world) :
  enable_deferred_delete counter_bits w
  = Returned (tt, set_enabled (wrap counter_bits (_enabled (this w) + 1)) w).
Proof. reflexivity. Qed.

Lemma disable_checked (w : world) :
  (ASSERT = true -> 0 < _enabled (this w)) ->
  disable_deferred_delete T_is_array counter_bits ASSERT w
    = Returned (tt, after_disable T_is_array counter_bits w).
Proof.
  intros Hpre. destruct w as [[lock e d] log].
  unfold ZSafeDelete.disable_deferred_delete, ZSafeDelete.after_disable,
    bind, gets, vmassert, guarantee, modify, swap. simpl in *.
  assert (Hchk : (if ASSERT
                  then (if 0 <? e then ret tt else fatal "Invalid state")
                  else ret tt)
                 = (ret tt : M world unit)).
  { destruct ASSERT; [|reflexivity].
    destruct (Z.ltb_spec 0 e); [reflexivity|]. specialize (Hpre eq_refl). lia. }
  rewrite Hchk. unfold ret at 1. simpl.
  destruct (ZSafeDelete.wrap counter_bits (e - 1) =? 0) eqn:Hz; simpl.
  - rewrite for_each_immediate_delete. simpl. reflexivity.
  - unfold ret. reflexivity.
Qed.

Lemma disable_unchecked (w : world) :
  ASSERT = true -> ~ 0 < _enabled (this w) ->
  disable_deferred_delete T_is_array counter_bits ASSERT w
    = VMError "Invalid state".
Proof.
  intros HA Hn. destruct w as [[lock e d] log].
  unfold ZSafeDelete.disable_deferred_delete, bind, gets, vmassert, guarantee.
  simpl in *. rewrite HA.
  destruct (Z.ltb_spec 0 e); [lia|]. reflexivity.
Qed.

(** A disable either trips its check or leaves [after_disable]. *)
Lemma disable_inv (w w' : world) :
  disable_deferred_delete T_is_array counter_bits ASSERT w
  = Returned (tt, w') ->
  w' = after_disable T_is_array counter_bits w.
Proof.
  intros H.
  destruct (bool_dec ASSERT true) as [HA|HA].
  - destruct (Z.ltb_spec 0 (_enabled (this w))) as [Hpos|Hnpos].
    + rewrite disable_checked in H by (intros _; exact Hpos). congruence.
    + rewrite disable_unchecked in H by (auto; lia). discriminate.
  - rewrite disable_checked in H by (intros Hc; contradiction).
    congruence.
Qed.

Lemma no_orphans_after_disable (w : world) :
  no_orphans w -> no_orphans (after_disable T_is_array counter_bits w).
Proof.
  unfold no_orphans, ZSafeDelete.after_disable. intros _.
  destruct (Z.eqb_spec (wrap counter_bits (_enabled (this w) - 1)) 0)
    as [Hz|Hz]; simpl.
  - reflexivity.
  - intros Hc. contradiction.
Qed.

Lemma no_orphans_after_enable (w : world) :
  representable counter_bits w -> _enabled (this w) + 1 < 2 ^ counter_bits ->
  no_orphans (set_enabled (wrap counter_bits (_enabled (this w) + 1)) w).
Proof.
  unfold ZSafeDelete.representable, no_orphans, ZSafeDelete.wrap. simpl.
  intros Hr Hb Hz.
  rewrite Z.mod_small in Hz by lia. lia.
Qed.

Lemma no_orphans_after_deferred_delete (item : ItemT) (w : world) (b : bool)
  (w' : world) :
  no_orphans w -> deferred_delete item w = Returned (b, w') -> no_orphans w'.
Proof.
  rewrite deferred_delete_eq. unfold no_orphans.
  destruct (Z.ltb_spec 0 (_enabled (this w))); intros Hi Hr;
    inversion Hr; subst; simpl; [lia | exact Hi].
Qed.

Lemma no_orphans_after_operator_call (item : ItemT) (w : world) (b : bool)
  (w' : world) :
  no_orphans w -> operator_call T_is_array item w
    = Returned (b, w') -> no_orphans w'.
Proof.
  rewrite operator_call_eq. unfold no_orphans.
  destruct (Z.ltb_spec 0 (_enabled (this w))); intros Hi Hr;
    inversion Hr; subst; simpl; [lia | exact Hi].
Qed.

Lemma enables_nonneg (t : list (operation ItemT)) : 0 <= enables t.
Proof. unfold enables. lia. Qed.

Lemma enables_cons (o : operation ItemT) (t : list (operation ItemT)) :
  enables (o :: t) = (if is_enable o then 1 else 0) + enables t.
Proof.
  unfold enables. cbn [filter].
  destruct (is_enable o); cbn [List.length]; lia.
Qed.

Lemma enables_app (t1 t2 : list (operation ItemT)) :
  enables (t1 ++ t2) = enables t1 + enables t2.
Proof.
  unfold enables. rewrite filter_app, length_app. lia.
Qed.

Lemma balanced_prefix (t1 t2 : list (operation ItemT)) :
  forall n, balanced n (t1 ++ t2) = true -> balanced n t1 = true.
Proof.
  induction t1 as [|o t1 IH]; intros n H; [reflexivity|].
  destruct o; simpl in *; auto.
  destruct n; [discriminate | auto].
Qed.

(** A balanced run that cannot overflow the counter returns; the counter
    then is the number of unmatched enables and the invariant still holds. *)
Lemma balanced_run (t : list (operation ItemT)) :
  forall (n : nat) (w : world),
    balanced n t = true ->
    _enabled (this w) = Z.of_nat n ->
    Z.of_nat n + enables t < 2 ^ counter_bits ->
    exists w',
      run T_is_array counter_bits ASSERT t w = Returned (tt, w')
      /\ _enabled (this w') = Z.of_nat n + net_enables t
      /\ 0 <= Z.of_nat n + net_enables t
      /\ (no_orphans w -> no_orphans w').
Proof.
  induction t as [|o t IH]; intros n w Hb He Hlt.
  - exists w. simpl. repeat split; auto; lia.
  - rewrite enables_cons in Hlt. pose proof (enables_nonneg t) as Hnn.
    unfold ZSafeDelete.run in *. simpl for_each. unfold bind at 1.
    destruct o as [| |item|item]; simpl in Hb; cbn [is_enable] in Hlt;
      cbn [ZSafeDelete.perform].
    + (* Enable *)
      rewrite enable_eq.
      assert (Hw : wrap counter_bits (_enabled (this w) + 1) = Z.of_nat (S n)).
      { unfold ZSafeDelete.wrap. rewrite Z.mod_small by lia. lia. }
      destruct
        (IH (S n) (set_enabled (wrap counter_bits (_enabled (this w) + 1)) w)
           Hb)
        as (w' & Hrun & He' & Hpos & Hinv); [exact Hw | lia |].
      exists w'. simpl net_enables. repeat split; [exact Hrun | lia | lia |].
      intros Hi. apply Hinv. apply no_orphans_after_enable; [|lia].
      unfold ZSafeDelete.representable. lia.
    + (* Disable *)
      destruct n as [|m]; [discriminate|].
      rewrite disable_checked by (intros _; lia).
      assert (Hw : _enabled (this (after_disable T_is_array counter_bits w))
                   = Z.of_nat m).
      { unfold ZSafeDelete.after_disable.
        assert (Hm : wrap counter_bits (_enabled (this w) - 1) = Z.of_nat m).
        { unfold ZSafeDelete.wrap. rewrite Z.mod_small by lia. lia. }
        rewrite Hm. destruct (Z.of_nat m =? 0); reflexivity. }
      destruct (IH m (after_disable T_is_array counter_bits w) Hb Hw)
        as (w' & Hrun & He' & Hpos & Hinv);
        [lia|].
      exists w'. simpl net_enables. repeat split; [exact Hrun | lia | lia |].
      intros Hi. apply Hinv. now apply no_orphans_after_disable.
    + (* DeferredDelete *)
      unfold bind. destruct (deferred_delete item w) as [[b w1]|] eqn:Hd;
        [|rewrite deferred_delete_eq in Hd;
          destruct (0 <? _enabled (this w)); discriminate].
      assert (He1 : _enabled (this w1) = Z.of_nat n).
      { rewrite deferred_delete_eq in Hd.
        destruct (0 <? _enabled (this w)); inversion Hd; subst; simpl; auto. }
      destruct (IH n w1 Hb He1) as (w' & Hrun & He' & Hpos & Hinv); [lia|].
      exists w'. unfold ret at 1. simpl net_enables.
      repeat split; [exact Hrun | lia | lia |].
      intros Hi. apply Hinv. eapply no_orphans_after_deferred_delete; eauto.
    + (* Call *)
      unfold bind. destruct (operator_call T_is_array item w)
        as [[b w1]|] eqn:Hd;
        [|rewrite operator_call_eq in Hd;
          destruct (0 <? _enabled (this w)); discriminate].
      assert (He1 : _enabled (this w1) = Z.of_nat n).
      { rewrite operator_call_eq in Hd.
        destruct (0 <? _enabled (this w)); inversion Hd; subst; simpl; auto. }
      destruct (IH n w1 Hb He1) as (w' & Hrun & He' & Hpos & Hinv); [lia|].
      exists w'. unfold ret at 1. simpl net_enables.
      repeat split; [exact Hrun | lia | lia |].
      intros Hi. apply Hinv. eapply no_orphans_after_operator_call; eauto.
Qed.

(** Every point of a balanced run from construction. *)
Lemma balanced_from_construction (lock : option ZLock)
  (t1 t2 : list (operation ItemT)) :
  balanced 0 (t1 ++ t2) = true ->
  enables (t1 ++ t2) < 2 ^ counter_bits ->
  exists w',
    run T_is_array counter_bits ASSERT t1 (construct lock) = Returned (tt, w')
    /\ _enabled (this w') = net_enables t1
    /\ 0 <= net_enables t1
    /\ no_orphans w'.
Proof.
  intros Hb Hlt. rewrite enables_app in Hlt.
  pose proof (enables_nonneg t2).
  destruct (balanced_run t1 0 (construct lock))
    as (w' & Hrun & He & Hpos & Hinv).
  - eapply balanced_prefix; eauto.
  - reflexivity.
  - simpl. lia.
  - exists w'. simpl in *. repeat split; auto.
    apply Hinv. unfold no_orphans. reflexivity.
Qed.

(** In a build with assertions, a run from a state with [n] unmatched
    enables returns only if it is balanced. *)
Lemma returning_run_is_balanced (t : list (operation ItemT)) :
  forall (n : nat) (w w' : world),
    ASSERT = true ->
    _enabled (this w) = Z.of_nat n ->
    Z.of_nat n + enables t < 2 ^ counter_bits ->
    run T_is_array counter_bits ASSERT t w = Returned (tt, w') ->
    balanced n t = true.
Proof.
  induction t as [|o t IH]; intros n w w' HA He Hlt Hrun; [reflexivity|].
  rewrite enables_cons in Hlt. pose proof (enables_nonneg t) as Hnn.
  unfold ZSafeDelete.run in *. simpl for_each in Hrun. unfold bind at 1 in Hrun.
  destruct o as [| |item|item]; cbn [is_enable] in Hlt;
    cbn [ZSafeDelete.perform] in Hrun; cbn [balanced].
  - rewrite enable_eq in Hrun.
    apply (IH (S n) _ w' HA) in Hrun; [exact Hrun | | lia].
    cbn [set_enabled this _enabled]. unfold ZSafeDelete.wrap.
    rewrite Z.mod_small by lia. lia.
  - destruct n as [|m].
    + rewrite disable_unchecked in Hrun by (auto; simpl in *; lia).
      discriminate.
    + rewrite disable_checked in Hrun by (intros _; lia).
      apply (IH m _ w' HA) in Hrun; [exact Hrun | | lia].
      unfold ZSafeDelete.after_disable.
      assert (Hm : wrap counter_bits (_enabled (this w) - 1) = Z.of_nat m).
      { unfold ZSafeDelete.wrap. rewrite Z.mod_small by lia. lia. }
      rewrite Hm. destruct (Z.of_nat m =? 0); reflexivity.
  - unfold bind in Hrun. rewrite deferred_delete_eq in Hrun.
    destruct (0 <? _enabled (this w)); unfold ret at 1 in Hrun;
      apply (IH n _ w' HA) in Hrun; auto; lia.
  - unfold bind in Hrun. rewrite operator_call_eq in Hrun.
    destruct (0 <? _enabled (this w)); unfold ret at 1 in Hrun;
      apply (IH n _ w' HA) in Hrun; auto; lia.
Qed.

(** C1.  An item passed to [operator()] is deferred, that is appended to
    [_deferred] with [deferred_delete] answering true and nothing deleted,
    exactly when [_enabled] is positive at that moment; otherwise it is
    deleted on the spot and the object is left as it was.  A
    [disable_deferred_delete] that passes its check returns; if it brings the
    counter to zero, every item of the deferred list is deleted, in order,
    and the list is empty afterwards; if the counter stays non-zero, nothing
    is deleted and the list is untouched. *)
Theorem deferral_follows_counter (w : world) (item : ItemT) :
  (0 < _enabled (this w) ->
     deferred_delete item w
       = Returned (true, set_deferred (_deferred (this w) ++ [item]) w)
     /\ operator_call T_is_array item w
       = Returned (true, set_deferred (_deferred (this w) ++ [item]) w))
  /\ (~ 0 < _enabled (this w) ->
     deferred_delete item w = Returned (false, w)
     /\ operator_call T_is_array item w
       = Returned
           (false,
            mkWorld (this w) (deleted w ++ [deletion_of T_is_array item])))
  /\ (forall b w',
        deferred_delete item w = Returned (b, w') ->
        (b = true <-> 0 < _enabled (this w)))
  /\ ((ASSERT = true -> 0 < _enabled (this w)) ->
      exists w',
        disable_deferred_delete T_is_array counter_bits ASSERT w
          = Returned (tt, w')
        /\ _enabled (this w') = wrap counter_bits (_enabled (this w) - 1)
        /\ (_enabled (this w') = 0 ->
              deleted w'
              = deleted w ++ map (deletion_of T_is_array) (_deferred (this w))
              /\ _deferred (this w') = [])
        /\ (_enabled (this w') <> 0 ->
              deleted w' = deleted w
              /\ _deferred (this w') = _deferred (this w))).
Proof.
  split; [|split; [|split]].
  - intros Hpos. rewrite deferred_delete_eq, operator_call_eq.
    destruct (Z.ltb_spec 0 (_enabled (this w))); [split; reflexivity | lia].
  - intros Hnpos. rewrite deferred_delete_eq, operator_call_eq.
    destruct (Z.ltb_spec 0 (_enabled (this w))); [lia | split; reflexivity].
  - intros b w' Hd. rewrite deferred_delete_eq in Hd.
    destruct (Z.ltb_spec 0 (_enabled (this w))); inversion Hd; subst.
    + split; auto.
    + split; [discriminate | lia].
  - intros Hpre. exists (after_disable T_is_array counter_bits w).
    split; [now apply disable_checked|].
    unfold ZSafeDelete.after_disable.
    destruct (Z.eqb_spec (wrap counter_bits (_enabled (this w) - 1)) 0)
      as [Hz|Hz]; simpl.
    + split; [reflexivity|]. split; [auto|]. intros Hc. contradiction.
    + split; [reflexivity|]. split; [|auto]. intros Hc. contradiction.
Qed.

(** C8.  [disable_deferred_delete] requires a positive counter: in a build
    with assertions a call at counter zero stops in the failed assertion,
    and a call at a positive counter returns.  Along a balanced run from
    construction, one in which every disable is matched by an earlier
    enable not yet used up and whose enables do not exhaust the counter's
    type, every call returns, so the assertion never fails, and at every
    point the counter is the number of enables minus the number of
    disables so far, which is not negative.  In a build with assertions
    these are the only runs that get through. *)
Theorem disable_needs_outstanding_enable :
  (forall w : world,
      ASSERT = true -> _enabled (this w) = 0 ->
      disable_deferred_delete T_is_array counter_bits ASSERT w
        = VMError "Invalid state")
  /\ (forall w : world,
      0 < _enabled (this w) ->
      exists w',
        disable_deferred_delete T_is_array counter_bits ASSERT w
        = Returned (tt, w'))
  /\ (forall (lock : option ZLock) (t1 t2 : list (operation ItemT)),
      balanced 0 (t1 ++ t2) = true ->
      enables (t1 ++ t2) < 2 ^ counter_bits ->
      exists w',
        run T_is_array counter_bits ASSERT t1 (construct lock)
          = Returned (tt, w')
        /\ _enabled (this w') = net_enables t1
        /\ 0 <= _enabled (this w'))
  /\ (forall (lock : option ZLock) (t : list (operation ItemT)) (w' : world),
      ASSERT = true ->
      enables t < 2 ^ counter_bits ->
      run T_is_array counter_bits ASSERT t (construct lock)
        = Returned (tt, w') ->
      balanced 0 t = true).
Proof.
  split; [|split; [|split]].
  - intros w HA Hz. apply disable_unchecked; [assumption | lia].
  - intros w Hpos. exists (after_disable T_is_array counter_bits w).
    apply disable_checked. intros _. exact Hpos.
  - intros lock t1 t2 Hb Hlt.
    destruct (balanced_from_construction lock t1 t2 Hb Hlt)
      as (w' & Hrun & He & Hpos & _).
    exists w'. repeat split; [assumption | assumption | lia].
  - intros lock t w' HA Hlt Hrun.
    apply (returning_run_is_balanced t 0 (construct lock) w' HA);
      [reflexivity | simpl; lia | exact Hrun].
Qed.

(** C9, amended.  Whenever [_enabled] is zero, [_deferred] is empty.  The
    constructor establishes this; [disable_deferred_delete],
    [deferred_delete] and [operator()] preserve it from every state, and
    [enable_deferred_delete] from every state whose counter is not at the
    largest value of its type; hence it holds at every point of a balanced
    run from construction that holds fewer enables than the counter's type
    has values. *)
Theorem no_orphans_is_invariant :
  (forall lock : option ZLock, no_orphans (construct lock : world))
  /\ (forall w : world,
      0 <= _enabled (this w) -> _enabled (this w) + 1 < 2 ^ counter_bits ->
      no_orphans w ->
      exists w',
        enable_deferred_delete counter_bits w = Returned (tt, w')
        /\ no_orphans w')
  /\ (forall w w' : world,
      no_orphans w ->
      disable_deferred_delete T_is_array counter_bits ASSERT w
      = Returned (tt, w') ->
      no_orphans w')
  /\ (forall (w w' : world) (item : ItemT) (b : bool),
      no_orphans w -> deferred_delete item w = Returned (b, w') ->
      no_orphans w')
  /\ (forall (w w' : world) (item : ItemT) (b : bool),
      no_orphans w -> operator_call T_is_array item w = Returned (b, w') ->
      no_orphans w')
  /\ (forall (lock : option ZLock) (t1 t2 : list (operation ItemT)),
      balanced 0 (t1 ++ t2) = true ->
      enables (t1 ++ t2) < 2 ^ counter_bits ->
      exists w', run T_is_array counter_bits ASSERT t1 (construct lock)
        = Returned (tt, w') /\ no_orphans w').
Proof.
  repeat apply conj.
  - intros lock. unfold no_orphans. reflexivity.
  - intros w H0 Hlt Hi. eexists. split; [apply enable_eq|].
    apply no_orphans_after_enable;
      [unfold ZSafeDelete.representable; lia | assumption].
  - intros w w' Hi Hd. apply disable_inv in Hd. subst w'.
    now apply no_orphans_after_disable.
  - intros w w' item b Hi Hd.
    eapply no_orphans_after_deferred_delete; eauto.
  - intros w w' item b Hi Hd.
    eapply no_orphans_after_operator_call; eauto.
  - intros lock t1 t2 Hb Hlt.
    destruct (balanced_from_construction lock t1 t2 Hb Hlt)
      as (w' & Hrun & _ & _ & Hinv).
    exists w'. split; assumption.
Qed.

End Impl.

(** *** The theorems at a [uint64_t] counter in a debug build *)

Lemma deferral_follows_counter_witness :
  operator_call false 7 one_pending
    = Returned (true, mkWorld (mkImpl None 1 [5; 7]) [])
  /\ operator_call false 7 fresh
    = Returned (false, mkWorld (mkImpl None 0 []) [Delete 7])
  /\ (true = true <-> 0 < 1)
  /\ exists w',
       disable_deferred_delete false 64 true one_pending = Returned (tt, w')
       /\ deleted w' = [Delete 5] /\ _deferred (this w') = [].
Proof.
  destruct (deferral_follows_counter false 64 true one_pending 7)
    as (Hdefer & _ & Hiff & Hdisable).
  destruct (deferral_follows_counter false 64 true fresh 7)
    as (_ & Hnow & _ & _).
  split; [|split; [|split]].
  - apply Hdefer. reflexivity.
  - apply Hnow. simpl. lia.
  - apply (Hiff true (mkWorld (mkImpl None 1 [5; 7]) [])). reflexivity.
  - destruct Hdisable as (w' & Hrun & Hcount & Hzero & _).
    + intros _. reflexivity.
    + exists w'. split; [exact Hrun|]. apply Hzero.
      rewrite Hcount. reflexivity.
Defined.

Lemma disable_needs_outstanding_enable_witness :
  disable_deferred_delete false 64 true fresh = VMError "Invalid state"
  /\ (exists w',
        disable_deferred_delete false 64 true one_pending = Returned (tt, w'))
  /\ (exists w',
       run false 64 true [Enable; Call 7; Disable] fresh = Returned (tt, w')
       /\ _enabled (this w') = 0 /\ 0 <= _enabled (this w'))
  /\ balanced 0 [Enable; Call (7 : Z); Disable] = true.
Proof.
  destruct (disable_needs_outstanding_enable (ItemT:=Z) (ZLock:=unit)
              false 64 true) as (Hfail & Hret & Hrun & Honly).
  split; [|split; [|split]].
  - apply Hfail; reflexivity.
  - apply Hret. reflexivity.
  - apply (Hrun None [Enable; Call 7; Disable] []).
    + reflexivity.
    + vm_compute. reflexivity.
  - apply (Honly None [Enable; Call 7; Disable]
             (mkWorld (mkImpl None 0 []) [Delete 7])).
    + reflexivity.
    + vm_compute. reflexivity.
    + vm_compute. reflexivity.
Defined.

Lemma no_orphans_is_invariant_witness :
  no_orphans fresh
  /\ (exists w',
        enable_deferred_delete 64 one_pending = Returned (tt, w')
        /\ no_orphans w')
  /\ no_orphans (mkWorld (mkImpl None 0 []) [Delete 5] : world Z unit)
  /\ no_orphans (mkWorld (mkImpl None 1 [5; 7]) [] : world Z unit)
  /\ no_orphans (mkWorld (mkImpl None 0 []) [Delete 7] : world Z unit)
  /\ exists w',
       run false 64 true [Enable; Call 7; Disable] fresh = Returned (tt, w')
       /\ no_orphans w'.
Proof.
  destruct (no_orphans_is_invariant (ItemT:=Z) (ZLock:=unit) false 64 true)
    as (Hctor & Henable & Hdisable & Hdefer & Hcall & Hrun).
  assert (Hpending : no_orphans one_pending).
  { unfold no_orphans. simpl. intros Hc. discriminate Hc. }
  split; [|split; [|split; [|split; [|split]]]].
  - apply Hctor.
  - apply Henable; [simpl; lia | vm_compute; reflexivity | exact Hpending].
  - apply (Hdisable one_pending); [exact Hpending | reflexivity].
  - apply (Hdefer one_pending _ 7 true); [exact Hpending | reflexivity].
  - apply (Hcall fresh _ 7 false); [apply Hctor | reflexivity].
  - apply (Hrun None [Enable; Call 7; Disable] []).
    + reflexivity.
    + vm_compute. reflexivity.
Defined.

(** C9 as stated, for every operation from every state, fails at
    [enable_deferred_delete]: with the counter at the largest value of its
    type and an item parked the invariant holds, [_enabled++] wraps to zero
    and the item stays parked.  A build without assertions reaches such a
    state from construction through an unmatched disable. *)
Lemma enable_at_top_breaks_no_orphans :
  no_orphans at_top
  /\ enable_deferred_delete 64 at_top
     = Returned (tt, mkWorld (mkImpl None 0 [5]) [])
  /\ ~ no_orphans (mkWorld (mkImpl None 0 [5]) [] : world Z unit)
  /\ run false 64 false [Disable; Call 7; Enable] fresh
     = Returned (tt, mkWorld (mkImpl None 0 [7]) [])
  /\ ~ no_orphans (mkWorld (mkImpl None 0 [7]) [] : world Z unit)
  /\ ~ (forall w w' : world Z unit,
          no_orphans w ->
          enable_deferred_delete 64 w = Returned (tt, w') ->
          no_orphans w').
Proof.
  assert (Htop : no_orphans at_top).
  { unfold no_orphans. simpl. intros Hc. discriminate Hc. }
  assert (Hstep : enable_deferred_delete 64 at_top
                  = Returned (tt, mkWorld (mkImpl None 0 [5]) [])).
  { vm_compute. reflexivity. }
  assert (Hbroken : ~ no_orphans (mkWorld (mkImpl None 0 [5]) []
                                  : world Z unit)).
  { unfold no_orphans. simpl. intros Hc. specialize (Hc eq_refl).
    discriminate Hc. }
  split; [exact Htop|]. split; [exact Hstep|]. split; [exact Hbroken|].
  split; [vm_compute; reflexivity|]. split.
  - unfold no_orphans. simpl. intros Hc. specialize (Hc eq_refl).
    discriminate Hc.
  - intros Hall. apply Hbroken. exact (Hall _ _ Htop Hstep).
Qed.

(** *** Concrete runs *)

Example deferred_until_last_disable :
  exec (run false 64 true
          [Enable; Enable; Call 7; Disable; Call 8; Disable; Call 9]) fresh
  = Returned (mkWorld (mkImpl None 0 []) [Delete 7; Delete 8; Delete 9]).
Proof. vm_compute. reflexivity. Qed.

Example nothing_deleted_while_enabled :
  exec (run false 64 true [Enable; Enable; Call 7; Disable; Call 8]) fresh
  = Returned (mkWorld (mkImpl None 1 [7; 8]) []).
Proof. vm_compute. reflexivity. Qed.

Example arrays_are_deleted_as_arrays :
  exec (run true 64 true [Call 7]) fresh
  = Returned (mkWorld (mkImpl None 0 []) [DeleteArray 7]).
Proof. vm_compute. reflexivity. Qed.

Example deferred_delete_alone_declines :
  deferred_delete 7 fresh = Returned (false, fresh).
Proof. reflexivity. Qed.

Example unmatched_disable_in_debug_build :
  run false 64 true [Enable; Disable; Disable] fresh = VMError "Invalid state".
Proof. vm_compute. reflexivity. Qed.

(** Without assertions nothing checks the precondition: the unsigned
    counter wraps. *)
Example unmatched_disable_in_product_build :
  exec (run false 64 false [Disable]) fresh
  = Returned (mkWorld (mkImpl None (2 ^ 64 - 1) []) []).
Proof. vm_compute. reflexivity. Qed.

End ZSafeDeleteProofs.

(** * Properties of the shared-archive bookkeeping *)

Module MetaspaceSharedProofs.
Import MetaspaceShared.
Section Statics.

Context {VirtualSpace : Type} {CompactHashtableStats : Type}.
Variable INCLUDE_CDS : bool.
Variable ASSERT : bool.
Variable LP64 : bool.

Local Abbreviation process :=
  (MetaspaceShared.process VirtualSpace CompactHashtableStats).

Lemma uintx_modulus_pos : 0 < 2 ^ uintx_bits LP64.
Proof. unfold uintx_bits. destruct LP64; reflexivity. Qed.

Lemma object_delta_uintx_eq (obj : Z) (s : process) :
  object_delta_uintx LP64 obj s
  = Returned ((obj - SharedBaseAddress s) mod 2 ^ uintx_bits LP64, s).
Proof. reflexivity. Qed.

Lemma u4_small (x : Z) : 0 <= x <= MAX_SHARED_DELTA -> u4 x = x.
Proof.
  unfold u4, MAX_SHARED_DELTA. intros Hx. apply Z.mod_small.
  change (2 ^ 32) with 4294967296. lia.
Qed.

(** C2.  The region catalogue is the fixed sequence [mc], [rw], [ro], [bm],
    the closed heap regions, the open heap regions, at indices 0 to 7: two
    closed and two open heap regions at most, eight indices in all and no
    region at any other index.  The catalogue and its limits are constants
    of the class; they depend on no state of a dump or of a load. *)
Theorem region_catalogue_is_fixed :
  region_catalogue
  = [Some misc_code; Some read_write_space; Some read_only_space; Some bitmap;
     Some (closed_archive_heap 0); Some (closed_archive_heap 1);
     Some (open_archive_heap 0); Some (open_archive_heap 1)]
  /\ [mc; rw; ro; bm] = [0; 1; 2; 3]
  /\ indices n_regions
     = [mc; rw; ro; bm;
        first_closed_archive_heap_region; last_closed_archive_heap_region;
        first_open_archive_heap_region; last_open_archive_heap_region]
  /\ max_closed_archive_heap_region = 2
  /\ max_open_archive_heap_region = 2
  /\ List.length (filter is_closed_heap region_catalogue)
     = Z.to_nat max_closed_archive_heap_region
  /\ List.length (filter is_open_heap region_catalogue)
     = Z.to_nat max_open_archive_heap_region
  /\ n_regions = 8
  /\ (forall idx, region_kind_of idx <> None <-> 0 <= idx < n_regions).
Proof.
  repeat apply conj; try reflexivity.
  intros idx. split.
  - intros Hk.
    cbv [region_kind_of mc rw ro bm first_closed_archive_heap_region
      last_closed_archive_heap_region first_open_archive_heap_region
      last_open_archive_heap_region max_closed_archive_heap_region
      max_open_archive_heap_region] in Hk.
    change n_regions with 8.
    repeat match type of Hk with
           | context [?a =? ?b] => destruct (Z.eqb_spec a b)
           | context [?a <=? ?b] => destruct (Z.leb_spec a b)
           end; simpl in Hk; first [lia | congruence].
  - intros Hr. change n_regions with 8 in Hr.
    assert (Hc : idx = 0 \/ idx = 1 \/ idx = 2 \/ idx = 3 \/ idx = 4
                 \/ idx = 5 \/ idx = 6 \/ idx = 7) by lia.
    destruct Hc as [->|[->|[->|[->|[->|[->|[->| ->]]]]]]]; discriminate.
Qed.

(** C3.  The delta of an object from the shared base address is a
    non-negative word.  If it is at most [MAX_SHARED_DELTA], which is
    [0x7FFFFFFF], [object_delta_u4] returns exactly that delta, the
    conversion to [u4] losing nothing; if it is larger, the [guarantee]
    stops the VM.  So whatever [object_delta_u4] returns is the delta and is
    at most [0x7FFFFFFF]. *)
Theorem object_delta_u4_fits (s : process) (obj : Z) :
  exists deltax,
    object_delta_uintx LP64 obj s = Returned (deltax, s)
    /\ 0 <= deltax
    /\ (deltax <= MAX_SHARED_DELTA ->
        object_delta_u4 LP64 obj s = Returned (deltax, s))
    /\ (MAX_SHARED_DELTA < deltax ->
        object_delta_u4 LP64 obj s = VMError "must be 32-bit offset")
    /\ (forall v s',
        object_delta_u4 LP64 obj s = Returned (v, s') ->
        v = deltax /\ 0 <= v <= 0x7FFFFFFF).
Proof.
  exists ((obj - SharedBaseAddress s) mod 2 ^ uintx_bits LP64).
  pose proof (Z.mod_pos_bound (obj - SharedBaseAddress s) _ uintx_modulus_pos)
    as Hrange.
  set (deltax := (obj - SharedBaseAddress s) mod 2 ^ uintx_bits LP64) in *.
  assert (Hu4 : object_delta_u4 LP64 obj s
                = if deltax <=? MAX_SHARED_DELTA
                  then Returned (u4 deltax, s)
                  else VMError "must be 32-bit offset").
  { unfold MetaspaceShared.object_delta_u4, bind.
    rewrite object_delta_uintx_eq. fold deltax.
    unfold guarantee. destruct (deltax <=? MAX_SHARED_DELTA); reflexivity. }
  split; [reflexivity|]. split; [lia|]. rewrite Hu4.
  destruct (Z.leb_spec deltax MAX_SHARED_DELTA) as [Hle|Hgt].
  - rewrite u4_small by lia. split; [reflexivity|].
    split; [lia|]. intros v s' Hr. inversion Hr; subst.
    unfold MAX_SHARED_DELTA in Hle. lia.
  - split; [lia|]. split; [reflexivity|]. intros v s' Hr. discriminate.
Qed.

(** C7.  [is_in_shared_metaspace], [is_in_shared_region],
    [relocation_delta] and [requested_base_address] are pure reads: for
    every argument and every state the call returns, every field of the
    process-wide state is as before, and the same call made again on that
    state gives the same answer. *)
Theorem queries_are_pure_reads (p idx : Z) :
  pure_read (is_in_shared_metaspace p : M process bool)
  /\ pure_read (is_in_shared_region INCLUDE_CDS p idx : M process bool)
  /\ pure_read (relocation_delta : M process Z)
  /\ pure_read (requested_base_address : M process Z).
Proof.
  unfold pure_read, twice.
  repeat apply conj; intros s.
  - eexists. split; reflexivity.
  - unfold MetaspaceShared.is_in_shared_region, bind, gets.
    destruct INCLUDE_CDS; [|eexists; split; reflexivity].
    destruct (region_at idx (regions s)) as [r|] eqn:Hr;
      (eexists; split; [reflexivity|]);
      unfold ret; cbn beta iota; rewrite Hr; reflexivity.
  - eexists. split; reflexivity.
  - eexists. split; reflexivity.
Qed.

(** C10.  [is_in_output_space] is to be called in archive-dump mode.  With
    [DumpSharedSpaces] set, in a build with CDS, it returns whether the
    pointer lies inside [_shared_rs], the dump-time reserved space, and
    its assertion does not fail; called with [DumpSharedSpaces] clear, in
    a build with assertions, it stops in the failed assertion. *)
Theorem is_in_output_space_needs_dump_mode (s : process) (ptr : Z) :
  (DumpSharedSpaces s = true -> INCLUDE_CDS = true ->
   is_in_output_space INCLUDE_CDS ASSERT ptr s
   = Returned (ReservedSpace_contains (_shared_rs (the_statics s)) ptr, s))
  /\ (DumpSharedSpaces s = false -> ASSERT = true ->
      is_in_output_space INCLUDE_CDS ASSERT ptr s = VMError "must be").
Proof.
  unfold MetaspaceShared.is_in_output_space, shared_rs, bind, gets, vmassert,
    guarantee.
  split.
  - intros Hd Hc. rewrite Hd, Hc. destruct ASSERT; reflexivity.
  - intros Hd Ha. rewrite Hd, Ha. reflexivity.
Qed.

(** C4.  Every call of [map_archives] returns, and what it returns is one
    of the three enumerators of [MapArchiveResult], which are distinct. *)
Theorem map_archives_returns_one_of_three (static_mapinfo : FileMapInfo)
  (dynamic_mapinfo : option FileMapInfo) (use_requested_addr : bool)
  (os : os_model) (s : process) :
  exists r s',
    map_archives static_mapinfo dynamic_mapinfo use_requested_addr os s
    = Returned (r, s')
    /\ (r = MAP_ARCHIVE_SUCCESS
        \/ r = MAP_ARCHIVE_MMAP_FAILURE
        \/ r = MAP_ARCHIVE_OTHER_FAILURE)
    /\ MAP_ARCHIVE_SUCCESS <> MAP_ARCHIVE_MMAP_FAILURE
    /\ MAP_ARCHIVE_SUCCESS <> MAP_ARCHIVE_OTHER_FAILURE
    /\ MAP_ARCHIVE_MMAP_FAILURE <> MAP_ARCHIVE_OTHER_FAILURE.
Proof.
  assert (Hret : exists r s',
             map_archives static_mapinfo dynamic_mapinfo use_requested_addr os s
             = Returned (r, s')).
  { unfold MetaspaceShared.map_archives.
    destruct (negb _); [eexists; eexists; reflexivity|].
    destruct (if use_requested_addr then _ else _) as [base|];
      [|eexists; eexists; reflexivity].
    destruct (map_at os base _ && _); eexists; eexists; reflexivity. }
  destruct Hret as (r & s' & Hret). exists r, s'.
  split; [exact Hret|].
  split; [destruct r; auto|].
  repeat split; discriminate.
Qed.

(** Case analysis on every test a monadic run in [H] went through. *)
Ltac break_run H :=
  repeat match type of H with
         | context [match ?x with _ => _ end] =>
             lazymatch x with
             | context [match _ with _ => _ end] => fail
             | _ => destruct x eqn:?; cbv beta iota in H; try discriminate H
             end
         end.

(** What one call does to the two gate flags. *)
Lemma perform_gate_flags (o : operation) (s s' : process) :
  exec (perform INCLUDE_CDS ASSERT LP64 o) s = Returned s' ->
  (_use_optimized_module_handling (the_statics s')
   = _use_optimized_module_handling (the_statics s)
   \/ (o = call_disable_optimized_module_handling
       /\ _use_optimized_module_handling (the_statics s') = false))
  /\ (_use_full_module_graph (the_statics s')
      = _use_full_module_graph (the_statics s)
      \/ (o = call_disable_full_module_graph
          /\ _use_full_module_graph (the_statics s') = false)).
Proof.
  intros H. destruct s as [x dump use base mb mt table].
  destruct o;
    cbv [exec MetaspaceShared.perform MetaspaceShared.set_shared_rs
         MetaspaceShared.object_delta_u4 MetaspaceShared.object_delta_uintx
         MetaspaceShared.set_archive_loading_failed
         MetaspaceShared.is_in_output_space MetaspaceShared.shared_rs
         MetaspaceShared.is_in_shared_metaspace
         MetaspaceShared.MetaspaceObj_is_shared
         MetaspaceShared.is_in_shared_region
         MetaspaceShared.remap_shared_readonly_as_readwrite
         MetaspaceShared.remapped_readwrite
         MetaspaceShared.requested_base_address
         MetaspaceShared.relocation_delta
         MetaspaceShared.use_optimized_module_handling
         MetaspaceShared.disable_optimized_module_handling
         MetaspaceShared.disable_full_module_graph
         MetaspaceShared.map_archives
         bind gets modify ret vmassert guarantee fatal
         with_statics with_regions with_shared_metaspace
         the_statics DumpSharedSpaces UseSharedSpaces SharedBaseAddress
         regions _shared_metaspace_base _shared_metaspace_top] in H;
    break_run H; inversion H; subst; simpl; auto.
Qed.

(** C5.  Both gate flags start enabled.  A call either leaves a flag as it
    is or, being that flag's disable call, sets it to false; so along
    every run of calls a flag that is false stays false. *)
Theorem gate_flags_only_latch_off :
  (forall (vs : VirtualSpace) (zero : CompactHashtableStats),
      _use_optimized_module_handling (static_initialization vs zero) = true
      /\ _use_full_module_graph (static_initialization vs zero) = true)
  /\ (forall (o : operation) (s s' : process),
      exec (perform INCLUDE_CDS ASSERT LP64 o) s = Returned s' ->
      (_use_optimized_module_handling (the_statics s')
       = _use_optimized_module_handling (the_statics s)
       \/ (o = call_disable_optimized_module_handling
           /\ _use_optimized_module_handling (the_statics s') = false))
      /\ (_use_full_module_graph (the_statics s')
          = _use_full_module_graph (the_statics s)
          \/ (o = call_disable_full_module_graph
              /\ _use_full_module_graph (the_statics s') = false)))
  /\ (forall (t : list operation) (s s' : process),
      exec (run INCLUDE_CDS ASSERT LP64 t) s = Returned s' ->
      (_use_optimized_module_handling (the_statics s) = false ->
       _use_optimized_module_handling (the_statics s') = false)
      /\ (_use_full_module_graph (the_statics s) = false ->
          _use_full_module_graph (the_statics s') = false)).
Proof.
  split; [|split].
  - intros vs zero. split; reflexivity.
  - exact perform_gate_flags.
  - induction t as [|o t IH]; intros s s' H.
    + cbv in H. inversion H; subst. auto.
    + unfold exec, MetaspaceShared.run in H. simpl for_each in H.
      unfold bind at 1 in H.
      destruct (perform INCLUDE_CDS ASSERT LP64 o s)
        as [[[] s1]|msg] eqn:Ho; [|discriminate].
      assert (Hstep : exec (perform INCLUDE_CDS ASSERT LP64 o) s = Returned s1)
        by (unfold exec; rewrite Ho; reflexivity).
      apply perform_gate_flags in Hstep.
      destruct Hstep as [Hopt Hfull].
      specialize (IH s1 s' H). destruct IH as [IHopt IHfull].
      split; intros Hoff.
      * apply IHopt. destruct Hopt as [Heq|[_ Heq]]; congruence.
      * apply IHfull. destruct Hfull as [Heq|[_ Heq]]; congruence.
Qed.

Lemma replace_at_length (r : FileMapRegion) (table : list FileMapRegion) :
  forall i, List.length (replace_at i r table) = List.length table.
Proof.
  induction table as [|x table IH]; intros [|i]; simpl; auto.
Qed.

Lemma nth_error_replace_at (r : FileMapRegion) (table : list FileMapRegion) :
  forall i j x,
    nth_error table j = Some x ->
    nth_error (replace_at i r table) j = Some (if Nat.eqb j i then r else x).
Proof.
  induction table as [|y table IH]; intros i j x Hj.
  - destruct j; discriminate.
  - destruct i as [|i], j as [|j]; simpl in *; auto.
Qed.

Lemma remap_not_due (os_remaps : bool) (s : process) :
  remap_due INCLUDE_CDS s = false ->
  remap_shared_readonly_as_readwrite INCLUDE_CDS os_remaps s
    = Returned (true, s).
Proof.
  unfold MetaspaceShared.remap_due,
    MetaspaceShared.remap_shared_readonly_as_readwrite, bind, gets, ret.
  destruct INCLUDE_CDS; [|reflexivity]. simpl.
  destruct (UseSharedSpaces s); [|reflexivity]. simpl.
  destruct (_remapped_readwrite (the_statics s)); [reflexivity|discriminate].
Qed.

Lemma remap_refused (s : process) :
  remap_due INCLUDE_CDS s = true ->
  remap_shared_readonly_as_readwrite INCLUDE_CDS false s = Returned (false, s).
Proof.
  unfold MetaspaceShared.remap_due,
    MetaspaceShared.remap_shared_readonly_as_readwrite, bind, gets, ret.
  destruct INCLUDE_CDS; [|discriminate]. simpl.
  destruct (UseSharedSpaces s); [|discriminate]. simpl.
  destruct (_remapped_readwrite (the_statics s)); [discriminate|reflexivity].
Qed.

Lemma remap_granted (s : process) :
  remap_due INCLUDE_CDS s = true ->
  remap_shared_readonly_as_readwrite INCLUDE_CDS true s
    = Returned (true, remapped_state s).
Proof.
  unfold MetaspaceShared.remap_due,
    MetaspaceShared.remap_shared_readonly_as_readwrite,
    MetaspaceShared.remapped_state, bind, gets, ret, modify.
  destruct INCLUDE_CDS; [|discriminate]. simpl.
  destruct (UseSharedSpaces s); [|discriminate]. simpl.
  destruct (_remapped_readwrite (the_statics s)); [discriminate|]. intros _.
  destruct (region_at ro (regions s)); reflexivity.
Qed.

Lemma remapped_state_not_due (s : process) :
  remap_due INCLUDE_CDS (remapped_state s) = false.
Proof.
  unfold MetaspaceShared.remap_due, MetaspaceShared.remapped_state.
  destruct (region_at ro (regions s)); simpl;
    rewrite andb_false_r; reflexivity.
Qed.

Lemma remapped_state_relaxed (s : process) :
  permissions_relaxed (regions s) (regions (remapped_state s)).
Proof.
  unfold MetaspaceShared.remapped_state, permissions_relaxed.
  destruct (region_at ro (regions s)) as [r0|] eqn:Hro;
    unfold with_statics, with_regions; cbn [regions].
  - split; [apply replace_at_length|].
    intros i r Hi.
    rewrite (nth_error_replace_at _ _ _ _ _ Hi).
    destruct (Nat.eqb_spec i (Z.to_nat ro)) as [->|Hne]; [|left; reflexivity].
    right. split; [reflexivity|].
    unfold region_at in Hro.
    destruct ((0 <=? ro) && (ro <? n_regions)); [|discriminate].
    rewrite Hi in Hro. inversion Hro; subst. reflexivity.
  - split; [reflexivity|]. intros i r Hi. left. exact Hi.
Qed.

Lemma permissions_relaxed_refl (table : list FileMapRegion) :
  permissions_relaxed table table.
Proof. split; [reflexivity|]. intros i r Hi. left. exact Hi. Qed.

(** Every call is one of the three cases above. *)
Lemma remap_cases (os_remaps : bool) (s : process) (b : bool) (s' : process) :
  remap_shared_readonly_as_readwrite INCLUDE_CDS os_remaps s
    = Returned (b, s') ->
  (remap_due INCLUDE_CDS s = false /\ b = true /\ s' = s)
  \/ (remap_due INCLUDE_CDS s = true /\ os_remaps = false /\ b = false
      /\ s' = s)
  \/ (remap_due INCLUDE_CDS s = true /\ os_remaps = true /\ b = true
      /\ s' = remapped_state s).
Proof.
  intros H. destruct (remap_due INCLUDE_CDS s) eqn:Hdue.
  - destruct os_remaps.
    + rewrite remap_granted in H by assumption. inversion H; subst.
      right; right; auto.
    + rewrite remap_refused in H by assumption. inversion H; subst.
      right; left; auto.
  - rewrite remap_not_due in H by assumption. inversion H; subst.
    left; auto.
Qed.

(** C6.  [remap_shared_readonly_as_readwrite] always returns.  Once
    [_remapped_readwrite] is set, or when sharing is not enabled, a call
    returns true and changes nothing; a call that returned true leaves a
    state in which every later call returns true and changes nothing.  A
    call leaves the region table as it was except that the entry of [ro]
    may have become read-write, and never clears [_remapped_readwrite]. *)
Theorem remap_is_idempotent :
  (forall (os_remaps : bool) (s : process),
      exists b s',
        remap_shared_readonly_as_readwrite INCLUDE_CDS os_remaps s
          = Returned (b, s'))
  /\ (forall (os_remaps : bool) (s : process),
      _remapped_readwrite (the_statics s) = true
      \/ UseSharedSpaces s = false ->
      remap_shared_readonly_as_readwrite INCLUDE_CDS os_remaps s
        = Returned (true, s))
  /\ (forall (first later : bool) (s s' : process),
      remap_shared_readonly_as_readwrite INCLUDE_CDS first s
        = Returned (true, s') ->
      remap_shared_readonly_as_readwrite INCLUDE_CDS later s'
        = Returned (true, s'))
  /\ (forall (os_remaps : bool) (s : process) (b : bool) (s' : process),
      remap_shared_readonly_as_readwrite INCLUDE_CDS os_remaps s
        = Returned (b, s') ->
      permissions_relaxed (regions s) (regions s')
      /\ (_remapped_readwrite (the_statics s) = true ->
          _remapped_readwrite (the_statics s') = true)).
Proof.
  split; [|split; [|split]].
  - intros os_remaps s. destruct (remap_due INCLUDE_CDS s) eqn:Hdue.
    + destruct os_remaps; eexists; eexists;
        [apply remap_granted | apply remap_refused]; assumption.
    + eexists; eexists. apply remap_not_due; assumption.
  - intros os_remaps s Hdone. apply remap_not_due.
    unfold MetaspaceShared.remap_due.
    destruct Hdone as [-> | ->]; simpl.
    + apply andb_false_r.
    + rewrite andb_false_r. reflexivity.
  - intros first later s s' H. apply remap_not_due.
    apply remap_cases in H.
    destruct H as [(Hdue & _ & ->)|[(_ & _ & Hb & _)|(_ & _ & _ & ->)]].
    + exact Hdue.
    + discriminate.
    + apply remapped_state_not_due.
  - intros os_remaps s b s' H. apply remap_cases in H.
    destruct H as [(_ & _ & ->)|[(_ & _ & _ & ->)|(_ & _ & _ & ->)]].
    + split; [apply permissions_relaxed_refl | auto].
    + split; [apply permissions_relaxed_refl | auto].
    + split; [apply remapped_state_relaxed|]. intros _.
      unfold MetaspaceShared.remapped_state.
      destruct (region_at ro (regions s)); reflexivity.
Qed.

End Statics.

(** *** The theorems in a 64-bit debug build with CDS *)

Lemma object_delta_u4_fits_witness :
  object_delta_u4 true 0x800001000 dumping = Returned (0x1000, dumping)
  /\ object_delta_u4 true 0x880000000 dumping
     = VMError "must be 32-bit offset"
  /\ 0 <= 0x1000 <= 0x7FFFFFFF.
Proof.
  destruct (object_delta_u4_fits true dumping 0x800001000)
    as (d & Hd & _ & Hle & _ & Hret).
  destruct (object_delta_u4_fits true dumping 0x880000000)
    as (d' & Hd' & _ & _ & Hgt & _).
  vm_compute in Hd. inversion Hd; subst d.
  vm_compute in Hd'. inversion Hd'; subst d'.
  split; [|split].
  - apply Hle. vm_compute. discriminate.
  - apply Hgt. reflexivity.
  - apply (Hret 0x1000 dumping). apply Hle. vm_compute. discriminate.
Defined.

Lemma gate_flags_only_latch_off_witness :
  (_use_optimized_module_handling (the_statics sharing) = true
   /\ _use_full_module_graph (the_statics sharing) = true)
  /\ _use_optimized_module_handling (the_statics gates_off) = false
  /\ _use_full_module_graph
       (the_statics (with_statics (assign_archive_loading_failed true)
                       gates_off)) = false.
Proof.
  destruct (gate_flags_only_latch_off (VirtualSpace:=unit)
              (CompactHashtableStats:=unit) true true true)
    as (Hstart & Hstep & Hrun).
  split; [|split].
  - apply (Hstart tt tt).
  - destruct (Hstep call_disable_optimized_module_handling
                (with_statics (assign_use_full_module_graph false) sharing)
                gates_off) as [[Hsame|[_ Hoff]] _].
    + reflexivity.
    + discriminate Hsame.
    + exact Hoff.
  - destruct (Hrun [call_set_archive_loading_failed; call_relocation_delta]
                gates_off
                (with_statics (assign_archive_loading_failed true) gates_off))
      as [_ Hfull].
    + reflexivity.
    + apply Hfull. reflexivity.
Defined.

Lemma remap_is_idempotent_witness :
  remap_shared_readonly_as_readwrite true false dumping
    = Returned (true, dumping)
  /\ remap_shared_readonly_as_readwrite true false (remapped_state mapped)
     = Returned (true, remapped_state mapped)
  /\ permissions_relaxed (regions mapped) (regions (remapped_state mapped)).
Proof.
  destruct (remap_is_idempotent (VirtualSpace:=unit)
              (CompactHashtableStats:=unit) true)
    as (_ & Hdone & Hagain & Hrelax).
  split; [|split].
  - apply Hdone. right. reflexivity.
  - apply (Hagain true false mapped). reflexivity.
  - apply (Hrelax true mapped true). reflexivity.
Defined.

Lemma is_in_output_space_needs_dump_mode_witness :
  is_in_output_space true true 0x800000010 dumping_reserved
    = Returned (true, dumping_reserved)
  /\ is_in_output_space true true 0x800000010 sharing = VMError "must be".
Proof.
  split.
  - apply (is_in_output_space_needs_dump_mode true true dumping_reserved
             0x800000010); reflexivity.
  - apply (is_in_output_space_needs_dump_mode true true sharing 0x800000010);
      reflexivity.
Defined.

(** *** Concrete runs *)

Example region_of_index_5 : region_kind_of 5 = Some (closed_archive_heap 1).
Proof. reflexivity. Qed.

Example region_of_index_8 : region_kind_of 8 = None.
Proof. reflexivity. Qed.

Example map_at_requested_base :
  (a <- map_archives example_archive None true willing_os ;;
   b <- relocation_delta ;;
   c <- is_in_shared_region true 0x800003000 ro ;;
   ret (a, b, c)) sharing
  = Returned ((MAP_ARCHIVE_SUCCESS, 0, true), mapped).
Proof. vm_compute. reflexivity. Qed.

Example map_elsewhere :
  exec (a <- map_archives example_archive None false willing_os ;;
        relocation_delta) sharing
  = Returned
      (with_regions
         [mkFileMapRegion 0x900000000 4096 read_execute;
          mkFileMapRegion 0x900001000 8192 read_write;
          mkFileMapRegion 0x900003000 16384 read_only;
          mkFileMapRegion 0 0 read_only]
         (with_shared_metaspace 0x900000000 0x900007200
            (with_statics (assign_relocation 0x100000000 0x800000000)
               sharing))).
Proof. vm_compute. reflexivity. Qed.

Example map_corrupt_archive :
  map_archives (mkFileMapInfo false 0x800000000 []) None true willing_os sharing
  = Returned (MAP_ARCHIVE_OTHER_FAILURE, sharing).
Proof. reflexivity. Qed.

Example map_address_taken :
  map_archives example_archive None true
    (mkOs (fun _ _ => false) (fun _ => None) (fun _ _ => true)) sharing
  = Returned (MAP_ARCHIVE_MMAP_FAILURE, sharing).
Proof. reflexivity. Qed.

Example remap_then_read_only_is_writable :
  region_at ro (regions (remapped_state mapped))
  = Some (mkFileMapRegion 0x800003000 16384 read_write).
Proof. vm_compute. reflexivity. Qed.

End MetaspaceSharedProofs.

(** * Further properties of the safe deleter *)

Module ZSafeDeleteMore.
Import ZSafeDelete ZSafeDeleteProofs.
Section Impl.

Context {ItemT : Type} {ZLock : Type}.
Variable T_is_array : bool.
Variable counter_bits : Z.
Variable ASSERT : bool.

Local Abbreviation world := (ZSafeDelete.world ItemT ZLock).

Lemma accounted_after_disable (w : world) :
  accounted T_is_array (after_disable T_is_array counter_bits w)
  = accounted T_is_array w.
Proof.
  unfold accounted, after_disable.
  destruct (wrap counter_bits (_enabled (this w) - 1) =? 0); simpl.
  - now rewrite app_nil_r.
  - reflexivity.
Qed.

Lemma accounted_after_deferral (item : ItemT) (w : world) :
  accounted T_is_array (set_deferred (_deferred (this w) ++ [item]) w)
  = accounted T_is_array w ++ [deletion_of T_is_array item].
Proof.
  unfold accounted. simpl. rewrite map_app. simpl. now rewrite app_assoc.
Qed.

Lemma accounted_after_delete (item : ItemT) (w : world) :
  _deferred (this w) = [] ->
  accounted T_is_array (log_delete (deletion_of T_is_array item) w)
  = accounted T_is_array w ++ [deletion_of T_is_array item].
Proof.
  unfold accounted. simpl. intros ->. simpl. now rewrite !app_nil_r.
Qed.

(** Along a balanced run nothing handed over is lost, duplicated or
    reordered. *)
Lemma run_conserves (t : list (operation ItemT)) :
  forall (n : nat) (w : world),
    balanced n t = true ->
    _enabled (this w) = Z.of_nat n ->
    Z.of_nat n + enables t < 2 ^ counter_bits ->
    no_orphans w ->
    exists w',
      run T_is_array counter_bits ASSERT t w = Returned (tt, w')
      /\ no_orphans w'
      /\ _enabled (this w') = Z.of_nat n + net_enables t
      /\ accounted T_is_array w'
         = accounted T_is_array w
           ++ map (deletion_of T_is_array) (handed_over n t).
Proof.
  induction t as [|o t IH]; intros n w Hb He Hlt Hinv.
  - exists w. simpl. rewrite app_nil_r. repeat split; auto; lia.
  - rewrite enables_cons in Hlt. pose proof (enables_nonneg t) as Hnn.
    unfold ZSafeDelete.run in *. simpl for_each. unfold bind at 1.
    destruct o as [| |item|item]; simpl in Hb; cbn [is_enable] in Hlt;
      cbn [ZSafeDelete.perform handed_over net_enables].
    + rewrite enable_eq.
      set (w1 := set_enabled (wrap counter_bits (_enabled (this w) + 1)) w).
      assert (Hw : _enabled (this w1) = Z.of_nat (S n)).
      { unfold w1, wrap. simpl. rewrite Z.mod_small by lia. lia. }
      destruct (IH (S n) w1 Hb Hw) as (w' & Hrun & Hinv' & He' & Hacc);
        [lia | |].
      { apply no_orphans_after_enable; [unfold representable; lia | lia]. }
      exists w'. repeat split; [exact Hrun | exact Hinv' | lia | exact Hacc].
    + destruct n as [|m]; [discriminate|].
      rewrite (disable_checked T_is_array counter_bits ASSERT w)
        by (intros _; lia).
      set (w1 := after_disable T_is_array counter_bits w).
      assert (Hw : _enabled (this w1) = Z.of_nat m).
      { unfold w1, after_disable.
        assert (Hm : wrap counter_bits (_enabled (this w) - 1) = Z.of_nat m).
        { unfold wrap. rewrite Z.mod_small by lia. lia. }
        rewrite Hm. destruct (Z.of_nat m =? 0); reflexivity. }
      destruct (IH m w1 Hb Hw) as (w' & Hrun & Hinv' & He' & Hacc); [lia | |].
      { now apply no_orphans_after_disable. }
      exists w'. unfold w1 in Hacc. rewrite accounted_after_disable in Hacc.
      repeat split; [exact Hrun | exact Hinv' | lia | exact Hacc].
    + unfold bind. rewrite deferred_delete_eq.
      destruct n as [|m].
      * destruct (Z.ltb_spec 0 (_enabled (this w))) as [Hpos|_]; [lia|].
        unfold ret at 1.
        destruct (IH 0%nat w Hb He) as (w' & Hrun & Hinv' & He' & Hacc);
          [lia | exact Hinv |].
        exists w'. repeat split; [exact Hrun | exact Hinv' | lia | exact Hacc].
      * destruct (Z.ltb_spec 0 (_enabled (this w))) as [_|Hnpos]; [|lia].
        unfold ret at 1.
        set (w1 := set_deferred (_deferred (this w) ++ [item]) w).
        destruct (IH (S m) w1 Hb) as (w' & Hrun & Hinv' & He' & Hacc);
          [exact He | lia | |].
        { unfold no_orphans, w1. simpl. lia. }
        exists w'. unfold w1 in Hacc. rewrite accounted_after_deferral in Hacc.
        rewrite <- app_assoc in Hacc.
        repeat split; [exact Hrun | exact Hinv' | lia | exact Hacc].
    + unfold bind. rewrite operator_call_eq.
      destruct (Z.ltb_spec 0 (_enabled (this w))) as [Hpos|Hnpos];
        unfold ret at 1.
      * set (w1 := set_deferred (_deferred (this w) ++ [item]) w).
        destruct (IH n w1 Hb) as (w' & Hrun & Hinv' & He' & Hacc);
          [exact He | lia | |].
        { unfold no_orphans, w1. simpl. lia. }
        exists w'. unfold w1 in Hacc. rewrite accounted_after_deferral in Hacc.
        rewrite <- app_assoc in Hacc.
        repeat split; [exact Hrun | exact Hinv' | lia | exact Hacc].
      * set (w1 := log_delete (deletion_of T_is_array item) w).
        assert (Hempty : _deferred (this w) = []) by (apply Hinv; lia).
        destruct (IH n w1 Hb) as (w' & Hrun & Hinv' & He' & Hacc);
          [exact He | lia | |].
        { unfold no_orphans, w1. simpl. intros _. exact Hempty. }
        exists w'. unfold w1 in Hacc.
        rewrite accounted_after_delete in Hacc by exact Hempty.
        rewrite <- app_assoc in Hacc.
        repeat split; [exact Hrun | exact Hinv' | lia | exact Hacc].
Qed.

Lemma deletion_of_injective (a b : ItemT) :
  deletion_of T_is_array a = deletion_of T_is_array b -> a = b.
Proof. unfold deletion_of. destruct T_is_array; congruence. Qed.

Lemma NoDup_app_disjoint {A : Type} (l1 l2 : list A) :
  NoDup (l1 ++ l2) -> forall a, In a l1 -> ~ In a l2.
Proof.
  induction l1 as [|x l1 IH]; intros Hnd a Hin; [contradiction|].
  simpl in Hnd. inversion Hnd as [|? ? Hx Hrest]; subst.
  destruct Hin as [->|Hin].
  - intros Hin2. apply Hx. apply in_or_app. now right.
  - now apply IH.
Qed.

(** X1.  Along a balanced run from construction, what has been deleted
    followed by what is still deferred is exactly the sequence of items
    handed over, in the order they were handed over.  When the run ends
    with no enable outstanding, nothing is deferred and every item handed
    over has been deleted. *)
Theorem deletions_follow_submission_order (lock : option ZLock)
  (t : list (operation ItemT)) :
  balanced 0 t = true ->
  enables t < 2 ^ counter_bits ->
  exists w' : world,
    run T_is_array counter_bits ASSERT t (construct lock) = Returned (tt, w')
    /\ deleted w' ++ map (deletion_of T_is_array) (_deferred (this w'))
       = map (deletion_of T_is_array) (handed_over 0 t)
    /\ (net_enables t = 0 ->
        _deferred (this w') = []
        /\ deleted w' = map (deletion_of T_is_array) (handed_over 0 t)).
Proof.
  intros Hb Hlt.
  destruct (run_conserves t 0 (construct lock) Hb)
    as (w' & Hrun & Hinv & He & Hacc).
  - reflexivity.
  - simpl. lia.
  - unfold no_orphans. reflexivity.
  - exists w'. unfold accounted in Hacc. simpl in Hacc.
    split; [exact Hrun|]. split; [exact Hacc|].
    intros Hnet. assert (Hempty : _deferred (this w') = []).
    { apply Hinv. simpl in He. lia. }
    split; [exact Hempty|]. rewrite Hempty in Hacc. simpl in Hacc.
    now rewrite app_nil_r in Hacc.
Qed.

(** X2.  No double delete: if the items handed over along a balanced run
    from construction are pairwise distinct, no item is deleted twice and
    no item is both deleted and still deferred. *)
Theorem no_item_is_deleted_twice (lock : option ZLock)
  (t : list (operation ItemT)) (w' : world) :
  balanced 0 t = true ->
  enables t < 2 ^ counter_bits ->
  NoDup (handed_over 0 t) ->
  run T_is_array counter_bits ASSERT t (construct lock) = Returned (tt, w') ->
  NoDup (deleted w')
  /\ NoDup (_deferred (this w'))
  /\ (forall item,
        In item (_deferred (this w')) ->
        ~ In (deletion_of T_is_array item) (deleted w')).
Proof.
  intros Hb Hlt Hnd Hrun'.
  destruct (run_conserves t 0 (construct lock) Hb)
    as (w1 & Hrun & _ & _ & Hacc);
    [reflexivity | simpl; lia | unfold no_orphans; reflexivity |].
  rewrite Hrun in Hrun'. inversion Hrun'; subst w1. clear Hrun'.
  unfold accounted in Hacc. simpl in Hacc.
  assert (Hall : NoDup (deleted w'
                        ++ map (deletion_of T_is_array) (_deferred (this w')))).
  { rewrite Hacc. apply NoDup_map_NoDup_ForallPairs; [|exact Hnd].
    intros a b _ _. apply deletion_of_injective. }
  split; [eapply NoDup_app_remove_r; exact Hall|].
  split.
  - apply NoDup_app_remove_l in Hall. eapply NoDup_map_inv; exact Hall.
  - intros item Hin Hdel.
    apply (NoDup_app_disjoint _ _ Hall _ Hdel). now apply in_map.
Qed.

(** While an enable is outstanding nothing is deleted. *)
Lemma run_while_enabled (t : list (operation ItemT)) :
  forall (n : nat) (w : world),
    balanced n t = true ->
    _enabled (this w) = Z.of_nat (S n) ->
    Z.of_nat (S n) + enables t < 2 ^ counter_bits ->
    exists w',
      run T_is_array counter_bits ASSERT t w = Returned (tt, w')
      /\ deleted w' = deleted w
      /\ _deferred (this w') = _deferred (this w) ++ items_passed t
      /\ 0 < _enabled (this w').
Proof.
  induction t as [|o t IH]; intros n w Hb He Hlt.
  - exists w. simpl. rewrite app_nil_r. repeat split; auto; lia.
  - rewrite enables_cons in Hlt. pose proof (enables_nonneg t) as Hnn.
    unfold ZSafeDelete.run in *. simpl for_each. unfold bind at 1.
    destruct o as [| |item|item]; simpl in Hb; cbn [is_enable] in Hlt;
      cbn [ZSafeDelete.perform items_passed].
    + rewrite enable_eq.
      set (w1 := set_enabled (wrap counter_bits (_enabled (this w) + 1)) w).
      assert (Hw : _enabled (this w1) = Z.of_nat (S (S n))).
      { unfold w1, wrap. simpl. rewrite Z.mod_small by lia. lia. }
      destruct (IH (S n) w1 Hb Hw) as (w' & Hrun & Hdel & Hdef & Hpos); [lia|].
      exists w'. repeat split; assumption.
    + destruct n as [|m]; [discriminate|].
      rewrite (disable_checked T_is_array counter_bits ASSERT w)
        by (intros _; lia).
      assert (Hm : wrap counter_bits (_enabled (this w) - 1) = Z.of_nat (S m)).
      { unfold wrap. rewrite Z.mod_small by lia. lia. }
      assert (Hw1 : after_disable T_is_array counter_bits w
                    = set_enabled (Z.of_nat (S m)) w).
      { unfold after_disable. rewrite Hm.
        destruct (Z.eqb_spec (Z.of_nat (S m)) 0); [lia | reflexivity]. }
      rewrite Hw1.
      destruct (IH m (set_enabled (Z.of_nat (S m)) w) Hb)
        as (w' & Hrun & Hdel & Hdef & Hpos); [reflexivity | lia |].
      exists w'. repeat split; assumption.
    + unfold bind. rewrite deferred_delete_eq.
      destruct (Z.ltb_spec 0 (_enabled (this w))) as [_|Hnpos]; [|lia].
      unfold ret at 1.
      destruct (IH n (set_deferred (_deferred (this w) ++ [item]) w) Hb)
        as (w' & Hrun & Hdel & Hdef & Hpos); [exact He | lia |].
      exists w'. simpl in Hdef, Hdel. rewrite <- app_assoc in Hdef.
      repeat split; assumption.
    + unfold bind. rewrite operator_call_eq.
      destruct (Z.ltb_spec 0 (_enabled (this w))) as [_|Hnpos]; [|lia].
      unfold ret at 1.
      destruct (IH n (set_deferred (_deferred (this w) ++ [item]) w) Hb)
        as (w' & Hrun & Hdel & Hdef & Hpos); [exact He | lia |].
      exists w'. simpl in Hdef, Hdel. rewrite <- app_assoc in Hdef.
      repeat split; assumption.
Qed.

(** X3.  Between an enable and its matching disable nothing is deleted:
    from a state with at least one enable outstanding, a run whose
    disables are all matched by enables of the run itself returns,
    performs no deletion and appends every item passed to
    [deferred_delete] or [operator()] to the deferred list, in order. *)
Theorem nothing_deleted_while_enable_outstanding
  (t : list (operation ItemT)) (w : world) :
  0 < _enabled (this w) ->
  balanced 0 t = true ->
  _enabled (this w) + enables t < 2 ^ counter_bits ->
  exists w',
    run T_is_array counter_bits ASSERT t w = Returned (tt, w')
    /\ deleted w' = deleted w
    /\ _deferred (this w') = _deferred (this w) ++ items_passed t
    /\ 0 < _enabled (this w').
Proof.
  intros Hpos Hb Hlt.
  assert (Hgen : forall (u : list (operation ItemT)) (a b : nat),
             balanced a u = true -> balanced (a + b) u = true).
  { induction u as [|o u IHu]; intros a b Hu; [reflexivity|].
    destruct o; simpl in *; auto.
    - apply (IHu (S a) b Hu).
    - destruct a as [|a]; [discriminate|]. apply (IHu a b Hu). }
  set (n := Z.to_nat (_enabled (this w) - 1)).
  apply (run_while_enabled t n w).
  - apply (Hgen t 0%nat n Hb).
  - unfold n. lia.
  - unfold n. lia.
Qed.

(** X4.  An enable immediately followed by its disable changes nothing:
    from a state that keeps the invariant and whose counter is not at the
    top of its type, the pair returns and leaves counter, deferred list and
    deletions exactly as they were. *)
Theorem enable_then_disable_is_no_op (w : world) :
  0 <= _enabled (this w) ->
  _enabled (this w) + 1 < 2 ^ counter_bits ->
  no_orphans w ->
  (enable_deferred_delete counter_bits ;;
   disable_deferred_delete T_is_array counter_bits ASSERT) w
  = Returned (tt, w).
Proof.
  intros H0 Hlt Hinv. unfold bind. rewrite enable_eq.
  assert (Hup : wrap counter_bits (_enabled (this w) + 1)
                = _enabled (this w) + 1).
  { unfold wrap. apply Z.mod_small. lia. }
  rewrite Hup.
  rewrite disable_checked by (intros _; simpl; lia).
  unfold after_disable. simpl.
  replace (_enabled (this w) + 1 - 1) with (_enabled (this w)) by lia.
  assert (Hdown : wrap counter_bits (_enabled (this w)) = _enabled (this w)).
  { unfold wrap. apply Z.mod_small. lia. }
  rewrite Hdown. destruct w as [[lock e d] log]. simpl in *.
  destruct (Z.eqb_spec e 0) as [->|Hne].
  - assert (Hd : d = []) by (apply Hinv; reflexivity). subst d.
    simpl. now rewrite app_nil_r.
  - reflexivity.
Qed.

Lemma deletion_of_kind (item : ItemT) :
  is_array_delete (deletion_of T_is_array item) = T_is_array.
Proof. unfold deletion_of. destruct T_is_array; reflexivity. Qed.

Lemma perform_keeps_log_uniform (o : operation ItemT) (w w' : world) :
  log_uniform T_is_array w ->
  perform T_is_array counter_bits ASSERT o w = Returned (tt, w') ->
  log_uniform T_is_array w'.
Proof.
  unfold log_uniform. intros Hu Hp. destruct o as [| |item|item]; simpl in Hp.
  - rewrite enable_eq in Hp. inversion Hp; subst. exact Hu.
  - apply disable_inv in Hp. subst w'. unfold after_disable.
    destruct (wrap counter_bits (_enabled (this w) - 1) =? 0); simpl;
      [|exact Hu].
    apply Forall_app. split; [exact Hu|].
    apply Forall_forall. intros e He. apply in_map_iff in He.
    destruct He as (item & <- & _). apply deletion_of_kind.
  - unfold bind in Hp. rewrite deferred_delete_eq in Hp.
    destruct (0 <? _enabled (this w)); inversion Hp; subst; exact Hu.
  - unfold bind in Hp. rewrite operator_call_eq in Hp.
    destruct (0 <? _enabled (this w)); inversion Hp; subst; simpl;
      [exact Hu|].
    apply Forall_app. split; [exact Hu|].
    constructor; [apply deletion_of_kind | constructor].
Qed.

(** X5.  A deleter never mixes the two forms of delete: whatever the
    calls made on it since construction, every deletion it has performed
    is a [delete []] when [T] is an array type and a plain [delete]
    otherwise. *)
Theorem deletions_match_the_item_type (lock : option ZLock)
  (t : list (operation ItemT)) (w' : world) :
  run T_is_array counter_bits ASSERT t (construct lock) = Returned (tt, w') ->
  Forall (fun e => is_array_delete e = T_is_array) (deleted w').
Proof.
  assert (Hgen : forall (u : list (operation ItemT)) (w : world),
             log_uniform T_is_array w ->
             run T_is_array counter_bits ASSERT u w = Returned (tt, w') ->
             log_uniform T_is_array w').
  { induction u as [|o u IHu]; intros w Hu Hrun.
    - cbv in Hrun. inversion Hrun; subst. exact Hu.
    - unfold ZSafeDelete.run in *. simpl for_each in Hrun.
      unfold bind at 1 in Hrun.
      destruct (perform T_is_array counter_bits ASSERT o w)
        as [[[] w1]|msg] eqn:Ho; [|discriminate].
      apply (IHu w1); [|exact Hrun].
      eapply perform_keeps_log_uniform; eauto. }
  intros Hrun. apply (Hgen t (construct lock)); [|exact Hrun].
  constructor.
Qed.

Lemma enabled_after_disable (w : world) :
  _enabled (this (after_disable T_is_array counter_bits w))
  = wrap counter_bits (_enabled (this w) - 1).
Proof.
  unfold after_disable.
  destruct (wrap counter_bits (_enabled (this w) - 1) =? 0); reflexivity.
Qed.

Lemma counter_after_run (t : list (operation ItemT)) :
  forall (k : Z) (w w' : world),
    _enabled (this w) = wrap counter_bits k ->
    run T_is_array counter_bits ASSERT t w = Returned (tt, w') ->
    _enabled (this w') = wrap counter_bits (k + net_enables t).
Proof.
  induction t as [|o t IH]; intros k w w' He Hrun.
  - cbv in Hrun. inversion Hrun; subst. simpl. now rewrite Z.add_0_r.
  - unfold ZSafeDelete.run in *. simpl for_each in Hrun.
    unfold bind at 1 in Hrun.
    destruct o as [| |item|item];
      cbn [ZSafeDelete.perform net_enables] in *.
    + rewrite enable_eq in Hrun.
      apply (IH (k + 1)) in Hrun.
      * rewrite Hrun. f_equal. lia.
      * simpl. rewrite He. unfold wrap. apply Zplus_mod_idemp_l.
    + destruct (disable_deferred_delete T_is_array counter_bits ASSERT w)
        as [[[] w1]|msg] eqn:Hd; [|discriminate].
      apply disable_inv in Hd. subst w1.
      apply (IH (k - 1)) in Hrun.
      * rewrite Hrun. f_equal. lia.
      * rewrite enabled_after_disable, He. unfold wrap.
        apply Zminus_mod_idemp_l.
    + unfold bind in Hrun. rewrite deferred_delete_eq in Hrun.
      destruct (0 <? _enabled (this w)); unfold ret at 1 in Hrun;
        apply (IH k) in Hrun; auto.
    + unfold bind in Hrun. rewrite operator_call_eq in Hrun.
      destruct (0 <? _enabled (this w)); unfold ret at 1 in Hrun;
        apply (IH k) in Hrun; auto.
Qed.

Lemma run_without_assertions (t : list (operation ItemT)) :
  forall w : world,
    ASSERT = false ->
    exists w', run T_is_array counter_bits ASSERT t w = Returned (tt, w').
Proof.
  induction t as [|o t IH]; intros w HA.
  - exists w. reflexivity.
  - unfold ZSafeDelete.run in *. simpl for_each. unfold bind at 1.
    destruct o as [| |item|item]; cbn [ZSafeDelete.perform].
    + rewrite enable_eq. apply IH, HA.
    + rewrite disable_checked by (intros Hc; congruence). apply IH, HA.
    + unfold bind. rewrite deferred_delete_eq.
      destruct (0 <? _enabled (this w)); unfold ret at 1; apply IH, HA.
    + unfold bind. rewrite operator_call_eq.
      destruct (0 <? _enabled (this w)); unfold ret at 1; apply IH, HA.
Qed.

(** X6.  The counter is the number of enables minus the number of
    disables, reduced modulo two to the width of its type: this is what
    [_enabled] holds after every run from construction that returns,
    balanced or not.  In a build without assertions every run returns, so
    an unmatched disable there wraps the counter round to its largest
    value instead of stopping. *)
Theorem counter_is_net_enables_modulo (lock : option ZLock)
  (t : list (operation ItemT)) :
  (forall w' : world,
      run T_is_array counter_bits ASSERT t (construct lock)
      = Returned (tt, w') ->
      _enabled (this w') = wrap counter_bits (net_enables t))
  /\ (ASSERT = false ->
      exists w' : world,
        run T_is_array counter_bits ASSERT t (construct lock)
        = Returned (tt, w')
        /\ _enabled (this w') = wrap counter_bits (net_enables t)).
Proof.
  assert (Hcount : forall w' : world,
             run T_is_array counter_bits ASSERT t (construct lock)
             = Returned (tt, w') ->
             _enabled (this w') = wrap counter_bits (net_enables t)).
  { intros w' Hrun.
    apply (counter_after_run t 0 (construct lock) w') in Hrun; [exact Hrun|].
    simpl. unfold wrap. now rewrite Zmod_0_l. }
  split; [exact Hcount|].
  intros HA.
  destruct (run_without_assertions t (construct lock) HA) as (w' & Hrun).
  exists w'. split; [exact Hrun | apply Hcount, Hrun].
Qed.

End Impl.

(** *** The theorems at a [uint64_t] counter *)

Lemma deletions_follow_submission_order_witness :
  exists w',
    run false 64 true nested_run fresh = Returned (tt, w')
    /\ deleted w' = [Delete 7; Delete 8; Delete 9; Delete 10]
    /\ _deferred (this w') = [].
Proof.
  destruct (deletions_follow_submission_order (ZLock:=unit) false 64 true
              None nested_run) as (w' & Hrun & _ & Hdrain).
  - reflexivity.
  - vm_compute. reflexivity.
  - exists w'. destruct Hdrain as [Hempty Hlog]; [reflexivity|].
    split; [exact Hrun|]. split; [rewrite Hlog; reflexivity | exact Hempty].
Defined.

Lemma no_item_is_deleted_twice_witness :
  NoDup [Delete 7; Delete 8; Delete 9; Delete (10 : Z)]
  /\ NoDup ([] : list Z)
  /\ (forall item : Z, In item [] -> ~ In (Delete item) [Delete 7; Delete 8;
                                                       Delete 9; Delete 10]).
Proof.
  apply (no_item_is_deleted_twice (ZLock:=unit) false 64 true None nested_run
           (mkWorld (mkImpl None 0 []) [Delete 7; Delete 8; Delete 9;
                                        Delete 10])).
  - reflexivity.
  - vm_compute. reflexivity.
  - simpl. repeat (constructor; [simpl; intuition discriminate|]).
    constructor.
  - vm_compute. reflexivity.
Defined.

Lemma nothing_deleted_while_enable_outstanding_witness :
  exists w',
    run false 64 true inner_run one_pending = Returned (tt, w')
    /\ deleted w' = []
    /\ _deferred (this w') = [5; 7; 8]
    /\ 0 < _enabled (this w').
Proof.
  apply (nothing_deleted_while_enable_outstanding (ZLock:=unit) false 64 true
           inner_run one_pending).
  - reflexivity.
  - reflexivity.
  - vm_compute. reflexivity.
Defined.

Lemma enable_then_disable_is_no_op_witness :
  (enable_deferred_delete 64 ;; disable_deferred_delete false 64 true)
    one_pending
  = Returned (tt, one_pending).
Proof.
  apply (enable_then_disable_is_no_op false 64 true one_pending).
  - simpl. lia.
  - vm_compute. reflexivity.
  - unfold no_orphans. simpl. intros Hc. discriminate Hc.
Defined.

Lemma deletions_match_the_item_type_witness :
  Forall (fun e : delete_expr Z => is_array_delete e = true)
    [DeleteArray 7; DeleteArray 8].
Proof.
  apply (deletions_match_the_item_type (ZLock:=unit) true 64 true None
           [Call 7; Enable; Call 8; Disable]
           (mkWorld (mkImpl None 0 []) [DeleteArray 7; DeleteArray 8])).
  vm_compute. reflexivity.
Defined.

Lemma counter_is_net_enables_modulo_witness :
  _enabled (this (mkWorld (mkImpl None (2 ^ 64 - 1) []) [] : world Z unit))
  = wrap 64 (-1)
  /\ exists w' : world Z unit,
       run false 64 false [Disable] fresh = Returned (tt, w')
       /\ _enabled (this w') = wrap 64 (-1).
Proof.
  destruct (counter_is_net_enables_modulo (ItemT:=Z) (ZLock:=unit)
              false 64 false None [Disable]) as (Hcount & Hproduct).
  split.
  - apply (Hcount (mkWorld (mkImpl None (2 ^ 64 - 1) []) [])).
    vm_compute. reflexivity.
  - apply Hproduct. reflexivity.
Defined.

End ZSafeDeleteMore.

(** * Further properties of the shared-archive bookkeeping *)

Module MetaspaceSharedMore.
Import MetaspaceShared MetaspaceSharedProofs.
Section Statics.

Context {VirtualSpace : Type} {CompactHashtableStats : Type}.
Variable INCLUDE_CDS : bool.
Variable ASSERT : bool.
Variable LP64 : bool.

Local Abbreviation process :=
  (MetaspaceShared.process VirtualSpace CompactHashtableStats).

(** X7.  The offset [object_delta_u4] returns leads back to the object:
    whenever it returns, the state is untouched and [SharedBaseAddress]
    plus the offset is the object's address, as machine words.  It does
    return, with the plain difference, for every object from
    [SharedBaseAddress] up to [MAX_SHARED_DELTA] bytes above it. *)
Theorem object_delta_u4_round_trip (s : process) (obj : Z) :
  (forall (v : Z) (s' : process),
      object_delta_u4 LP64 obj s = Returned (v, s') ->
      s' = s
      /\ (SharedBaseAddress s + v) mod 2 ^ uintx_bits LP64
         = obj mod 2 ^ uintx_bits LP64)
  /\ (SharedBaseAddress s <= obj <= SharedBaseAddress s + MAX_SHARED_DELTA ->
      object_delta_u4 LP64 obj s = Returned (obj - SharedBaseAddress s, s)).
Proof.
  pose proof (uintx_modulus_pos LP64) as Hpos.
  set (m := 2 ^ uintx_bits LP64) in *.
  set (d := (obj - SharedBaseAddress s) mod m).
  assert (Hd : 0 <= d < m) by (apply Z.mod_pos_bound; exact Hpos).
  assert (Hu4 : object_delta_u4 LP64 obj s
                = if d <=? MAX_SHARED_DELTA
                  then Returned (u4 d, s)
                  else VMError "must be 32-bit offset").
  { unfold MetaspaceShared.object_delta_u4, bind.
    rewrite object_delta_uintx_eq. fold m. fold d.
    unfold guarantee. destruct (d <=? MAX_SHARED_DELTA); reflexivity. }
  split.
  - intros v s' Hr. rewrite Hu4 in Hr.
    destruct (Z.leb_spec d MAX_SHARED_DELTA) as [Hle|Hgt]; [|discriminate].
    rewrite u4_small in Hr by lia. inversion Hr; subst v s'.
    split; [reflexivity|]. unfold d. rewrite Zplus_mod_idemp_r.
    f_equal. lia.
  - intros Hin. rewrite Hu4.
    assert (Hm : 4294967296 <= m).
    { unfold m, uintx_bits. destruct LP64; vm_compute; discriminate. }
    assert (Hsmall : d = obj - SharedBaseAddress s).
    { unfold d. apply Z.mod_small. unfold MAX_SHARED_DELTA in Hin. lia. }
    rewrite Hsmall.
    destruct (Z.leb_spec (obj - SharedBaseAddress s) MAX_SHARED_DELTA)
      as [Hle|Hgt]; [|lia].
    rewrite u4_small by lia. reflexivity.
Qed.

(** X8.  [shared_rs()] gives back what [set_shared_rs] stored last: with
    CDS, a later [set_shared_rs] overrides an earlier one, [shared_rs()]
    then points to the space just set, and in dump mode
    [is_in_output_space] answers for that space.  Without CDS
    [set_shared_rs] does nothing and [shared_rs()] is [NULL]. *)
Theorem shared_rs_is_the_last_one_set (rs1 rs2 : ReservedSpace) (ptr : Z)
  (s : process) :
  (INCLUDE_CDS = true ->
   (set_shared_rs INCLUDE_CDS rs1 ;; set_shared_rs INCLUDE_CDS rs2 ;;
    shared_rs INCLUDE_CDS) s
   = Returned (Some rs2, with_statics (assign_shared_rs rs2) s)
   /\ (DumpSharedSpaces s = true ->
       (set_shared_rs INCLUDE_CDS rs2 ;;
        is_in_output_space INCLUDE_CDS ASSERT ptr) s
       = Returned (ReservedSpace_contains rs2 ptr,
                   with_statics (assign_shared_rs rs2) s)))
  /\ (INCLUDE_CDS = false ->
      (set_shared_rs INCLUDE_CDS rs2 ;; shared_rs INCLUDE_CDS) s
      = Returned (None, s)).
Proof.
  split.
  - intros Hc. split.
    + unfold set_shared_rs, shared_rs, bind, modify, gets, ret. rewrite Hc.
      destruct s as [x dump use base mb mt table]. destruct x. reflexivity.
    + intros Hd.
      unfold set_shared_rs, MetaspaceShared.is_in_output_space, shared_rs,
        bind, modify, gets, ret, vmassert, guarantee.
      rewrite Hc. destruct s as [x dump use base mb mt table].
      simpl in Hd. subst dump. destruct x. simpl.
      destruct ASSERT; reflexivity.
  - intros Hc. unfold set_shared_rs, shared_rs, bind, ret. rewrite Hc.
    reflexivity.
Qed.


(** X10.  The two gates are independent: disabling one leaves the other
    as it was, the two disables commute, and disabling twice is disabling
    once. *)
Theorem gate_disables_are_independent (s : process) :
  exec (disable_optimized_module_handling ;; disable_full_module_graph) s
  = exec (disable_full_module_graph ;; disable_optimized_module_handling) s
  /\ exec (disable_optimized_module_handling ;;
           disable_optimized_module_handling) s
     = exec disable_optimized_module_handling s
  /\ exec (disable_full_module_graph ;; disable_full_module_graph) s
     = exec disable_full_module_graph s
  /\ (forall s' : process,
        exec disable_optimized_module_handling s = Returned s' ->
        _use_optimized_module_handling (the_statics s') = false
        /\ _use_full_module_graph (the_statics s')
           = _use_full_module_graph (the_statics s))
  /\ (forall s' : process,
        exec disable_full_module_graph s = Returned s' ->
        _use_full_module_graph (the_statics s') = false
        /\ _use_optimized_module_handling (the_statics s')
           = _use_optimized_module_handling (the_statics s)).
Proof.
  destruct s as [x dump use base mb mt table]. destruct x.
  repeat apply conj; try reflexivity.
  - intros s' H. cbv in H. inversion H; subst. split; reflexivity.
  - intros s' H. cbv in H. inversion H; subst. split; reflexivity.
Qed.

Lemma run_keeps_optimized_off (t : list operation) :
  forall s s' : process,
    exec (run INCLUDE_CDS ASSERT LP64 t) s = Returned s' ->
    _use_optimized_module_handling (the_statics s) = false ->
    _use_optimized_module_handling (the_statics s') = false.
Proof.
  induction t as [|o t IH]; intros s s' H Hoff.
  - cbv in H. inversion H; subst. exact Hoff.
  - unfold exec, MetaspaceShared.run in H. simpl for_each in H.
    unfold bind at 1 in H.
    destruct (perform INCLUDE_CDS ASSERT LP64 o s) as [[[] s1]|msg] eqn:Ho;
      [|discriminate].
    assert (Hstep : exec (perform INCLUDE_CDS ASSERT LP64 o) s = Returned s1)
      by (unfold exec; rewrite Ho; reflexivity).
    apply perform_gate_flags in Hstep. destruct Hstep as [Hopt _].
    apply (IH s1 s' H). destruct Hopt as [Heq|[_ Heq]]; congruence.
Qed.

(** X11.  Once [disable_optimized_module_handling] has been called,
    [use_optimized_module_handling()] answers false after any further calls.
    Without CDS it answers false from the start. *)
Theorem optimized_module_handling_stays_off (t : list operation)
  (s : process) :
  (forall s' : process,
      exec (disable_optimized_module_handling ;;
            run INCLUDE_CDS ASSERT LP64 t) s = Returned s' ->
      use_optimized_module_handling INCLUDE_CDS s' = Returned (false, s'))
  /\ use_optimized_module_handling false s = Returned (false, s).
Proof.
  split; [|reflexivity].
  intros s' H. unfold exec, bind, disable_optimized_module_handling in H.
  unfold modify at 1 in H.
  assert (Hrun : exec (run INCLUDE_CDS ASSERT LP64 t)
                   (with_statics (assign_use_optimized_module_handling false) s)
                 = Returned s').
  { unfold exec. exact H. }
  apply run_keeps_optimized_off in Hrun; [|reflexivity].
  unfold use_optimized_module_handling, gets, ret.
  destruct INCLUDE_CDS; [rewrite Hrun|]; reflexivity.
Qed.

(** Case analysis on the tests of a run, innermost first. *)
Ltac case_run H :=
  repeat match type of H with
         | context [match ?x with _ => _ end] =>
             lazymatch x with
             | context [match _ with _ => _ end] => fail
             | _ => destruct x eqn:?; cbv beta iota in H; try discriminate H
             end
         end.

Lemma perform_keeps_loading_failed (o : operation) (s s' : process) :
  exec (perform INCLUDE_CDS ASSERT LP64 o) s = Returned s' ->
  _archive_loading_failed (the_statics s) = true ->
  _archive_loading_failed (the_statics s') = true.
Proof.
  intros H. destruct s as [x dump use base mb mt table].
  destruct o;
    cbv [exec MetaspaceShared.perform MetaspaceShared.set_shared_rs
         MetaspaceShared.object_delta_u4 MetaspaceShared.object_delta_uintx
         MetaspaceShared.set_archive_loading_failed
         MetaspaceShared.is_in_output_space MetaspaceShared.shared_rs
         MetaspaceShared.is_in_shared_metaspace
         MetaspaceShared.MetaspaceObj_is_shared
         MetaspaceShared.is_in_shared_region
         MetaspaceShared.remap_shared_readonly_as_readwrite
         MetaspaceShared.remapped_readwrite
         MetaspaceShared.requested_base_address
         MetaspaceShared.relocation_delta
         MetaspaceShared.use_optimized_module_handling
         MetaspaceShared.disable_optimized_module_handling
         MetaspaceShared.disable_full_module_graph
         MetaspaceShared.map_archives
         bind gets modify ret vmassert guarantee fatal
         with_statics with_regions with_shared_metaspace
         the_statics DumpSharedSpaces UseSharedSpaces SharedBaseAddress
         regions _shared_metaspace_base _shared_metaspace_top] in H;
    case_run H; inversion H; subst; simpl; auto.
Qed.

(** X12.  [set_archive_loading_failed] latches: calling it twice is
    calling it once, and once it has been called [_archive_loading_failed]
    is set after any further calls. *)
Theorem archive_loading_failed_latches (t : list operation) (s : process) :
  exec (set_archive_loading_failed ;; set_archive_loading_failed) s
  = exec set_archive_loading_failed s
  /\ (forall s' : process,
        exec (set_archive_loading_failed ;;
              run INCLUDE_CDS ASSERT LP64 t) s = Returned s' ->
        _archive_loading_failed (the_statics s') = true).
Proof.
  split.
  - destruct s as [x dump use base mb mt table]. destruct x. reflexivity.
  - intros s' H. unfold exec, bind, set_archive_loading_failed in H.
    unfold modify at 1 in H.
    assert (Hgen : forall (u : list operation) (a b : process),
               exec (run INCLUDE_CDS ASSERT LP64 u) a = Returned b ->
               _archive_loading_failed (the_statics a) = true ->
               _archive_loading_failed (the_statics b) = true).
    { induction u as [|o u IHu]; intros a b Hu Ha.
      - cbv in Hu. inversion Hu; subst. exact Ha.
      - unfold exec, MetaspaceShared.run in Hu. simpl for_each in Hu.
        unfold bind at 1 in Hu.
        destruct (perform INCLUDE_CDS ASSERT LP64 o a) as [[[] a1]|msg] eqn:Ho;
          [|discriminate].
        apply (IHu a1 b Hu).
        apply (perform_keeps_loading_failed o a a1); [|exact Ha].
        unfold exec. rewrite Ho. reflexivity. }
    apply (Hgen t (with_statics (assign_archive_loading_failed true) s) s').
    + unfold exec. exact H.
    + reflexivity.
Qed.

End Statics.

(** *** The theorems in a 64-bit debug build with CDS *)

Lemma object_delta_u4_round_trip_witness :
  (0x800000000 + 0x1000) mod 2 ^ 64 = 0x800001000 mod 2 ^ 64
  /\ object_delta_u4 true 0x800001000 dumping = Returned (0x1000, dumping).
Proof.
  destruct (object_delta_u4_round_trip true dumping 0x800001000)
    as (Hback & Hthere).
  split.
  - apply (Hback 0x1000 dumping). reflexivity.
  - apply Hthere. vm_compute. split; discriminate.
Defined.

Lemma shared_rs_is_the_last_one_set_witness :
  (set_shared_rs true (mkReservedSpace 0 16) ;;
   set_shared_rs true (mkReservedSpace 0x800000000 0x100000) ;;
   shared_rs true) dumping
  = Returned (Some (mkReservedSpace 0x800000000 0x100000), dumping_reserved)
  /\ (set_shared_rs true (mkReservedSpace 0x800000000 0x100000) ;;
      is_in_output_space true true 0x800000010) dumping
     = Returned (true, dumping_reserved)
  /\ (set_shared_rs false (mkReservedSpace 0x800000000 0x100000) ;;
      shared_rs false) dumping
     = Returned (None, dumping).
Proof.
  destruct (shared_rs_is_the_last_one_set true true (mkReservedSpace 0 16)
              (mkReservedSpace 0x800000000 0x100000) 0x800000010 dumping)
    as (Hcds & _).
  destruct (shared_rs_is_the_last_one_set false true (mkReservedSpace 0 16)
              (mkReservedSpace 0x800000000 0x100000) 0x800000010 dumping)
    as (_ & Hnone).
  destruct Hcds as (Hlast & Hdump); [reflexivity|].
  split; [exact Hlast|]. split.
  - apply Hdump. reflexivity.
  - apply Hnone. reflexivity.
Defined.

Lemma gate_disables_are_independent_witness :
  _use_optimized_module_handling
    (the_statics
       (with_statics (assign_use_optimized_module_handling false) sharing))
  = false
  /\ _use_full_module_graph
       (the_statics
          (with_statics (assign_use_optimized_module_handling false) sharing))
     = true.
Proof.
  destruct (gate_disables_are_independent sharing) as (_ & _ & _ & Hopt & _).
  apply (Hopt (with_statics (assign_use_optimized_module_handling false)
                 sharing)).
  reflexivity.
Defined.

Lemma optimized_module_handling_stays_off_witness :
  use_optimized_module_handling true
    (with_statics (assign_archive_loading_failed true)
       (with_statics (assign_use_optimized_module_handling false) sharing))
  = Returned
      (false,
       with_statics (assign_archive_loading_failed true)
         (with_statics (assign_use_optimized_module_handling false) sharing)).
Proof.
  destruct (optimized_module_handling_stays_off true true true
              [call_set_archive_loading_failed;
               call_use_optimized_module_handling] sharing) as (Hoff & _).
  apply Hoff. reflexivity.
Defined.

Lemma archive_loading_failed_latches_witness :
  _archive_loading_failed
    (the_statics
       (with_statics (assign_use_full_module_graph false)
          (with_statics (assign_archive_loading_failed true) sharing)))
  = true.
Proof.
  destruct (archive_loading_failed_latches true true true
              [call_disable_full_module_graph; call_relocation_delta] sharing)
    as (_ & Hlatch).
  apply Hlatch. reflexivity.
Defined.

End MetaspaceSharedMore.
